(** * quantum-string: the bounded field history and the simulation driver

  A shallow embedding of [src/field.py] (class [OneSpaceField]) and of
  the time loop of [src/simulation.py] ([Simulation.run]), followed by
  the properties of the specification that concern them. *)

From Stdlib Require Import ZArith List Bool Lia String Ascii.
From stdpp Require Import base tactics option list strings.
Import ListNotations.

Local Open Scope Z_scope.

(** ** Python exceptions *)

(** The exceptions the two files can raise.  [field.py] raises
  [ValueError] everywhere; the constructor argument keeps apart the
  places that raise it. *)
Inductive reason : Type :=
| MemoryTooSmall            (* "'memory' has to be greater than 3!" *)
| IncorrectShape            (* "Initial value for the field is not of a correct shape!" *)
| NotAMatrix                (* "Initial value for the field is probably not a NumPy matrix!" *)
| MemoryRestriction (t : Z) (* "Cannot access the field ... at time step t because of memory restriction" *)
| DimensionMismatch         (* raised by numpy when stacked widths differ *)
| ClosedFile.               (* "I/O operation on closed file." *)

Inductive exn : Type :=
| ValueError (why : reason)
| IndexError
| TypeError
| UnboundLocalError.

(** ** The fragment of NumPy used by [field.py] *)

Module np.
Section Arrays.
Context {A : Type}.

(** A two-dimensional array of shape [(length rows, ncols)].  The
    width is stored because an array without rows still has one. *)
Record ndarray : Type := mk_ndarray { ncols : nat; rows : list (list A) }.

(** Every row has the array's width; true of all arrays numpy builds. *)
Definition wf (a : ndarray) : Prop :=
  Forall (fun r => length r = ncols a) (rows a).

Definition shape (a : ndarray) : Z * Z :=
  (Z.of_nat (length (rows a)), Z.of_nat (ncols a)).

(** Python indexing along an axis of size [len]: [0 .. len-1] from the
    front, [-len .. -1] from the back, anything else is out of bounds. *)
Definition axis_index (len : nat) (i : Z) : option nat :=
  if 0 <=? i then
    if i <? Z.of_nat len then Some (Z.to_nat i) else None
  else
    if - Z.of_nat len <=? i then Some (Z.to_nat (Z.of_nat len + i)) else None.

(** [a[i]] *)
Definition getitem (a : ndarray) (i : Z) : exn + list A :=
  match axis_index (length (rows a)) i with
  | Some k =>
      match rows a !! k with
      | Some r => inr r
      | None => inl IndexError
      end
  | None => inl IndexError
  end.

(** [a[:, n]] *)
Definition getcolumn (a : ndarray) (n : Z) : exn + list A :=
  match axis_index (ncols a) n with
  | Some j =>
      match mapM (fun r : list A => r !! j) (rows a) with
      | Some c => inr c
      | None => inl IndexError
      end
  | None => inl IndexError
  end.

(** [np.vstack((a, newval))] for a one-dimensional [newval], which
    numpy first promotes to a single row. *)
Definition vstack (a : ndarray) (newval : list A) : exn + ndarray :=
  if Nat.eqb (length newval) (ncols a)
  then inr {| ncols := ncols a; rows := rows a ++ [newval] |}
  else inl (ValueError DimensionMismatch).

(** [np.delete(a, 0, 0)]: the array without its first row. *)
Definition delete_first_row (a : ndarray) : exn + ndarray :=
  match rows a with
  | [] => inl IndexError
  | _ :: rest => inr {| ncols := ncols a; rows := rest |}
  end.

(** [np.copy(a)]: a new array with the same contents. *)
Definition copy (a : ndarray) : ndarray :=
  {| ncols := ncols a; rows := rows a |}.
End Arrays.
Arguments ndarray : clear implicits.
End np.

(** ** [field.py]: class [OneSpaceField] *)

(** The [memory] argument: an integer, or [np.inf] (the default). *)
Inductive bound : Type :=
| Fin (m : Z)
| Inf.

(** What a caller can hand to the constructor as [init_val]: a
  two-dimensional array, or an object whose [shape] is missing or does
  not unpack into a pair (a nested list, a scalar, an array of another
  rank, a ragged object array). *)
Inductive pyobject (A : Type) : Type :=
| Array2D (a : np.ndarray A)
| NoPairShape.
Arguments Array2D {A} a.
Arguments NoPairShape {A}.

Module OneSpaceField.
Section Field.
Context {A : Type}.

Record t : Type := mk {
  _last_tstep : Z;
  val : np.ndarray A;
  memory : bound
}.

(** [memory < z] and [z > memory], where [memory] may be [np.inf]. *)
Definition bound_lt (b : bound) (z : Z) : bool :=
  match b with Fin m => m <? z | Inf => false end.
Definition gt_bound (z : Z) (b : bound) : bool :=
  match b with Fin m => z >? m | Inf => false end.

(** [__init__]: the body of the [try] either yields the object or an
    exception; the bare [except] turns every exception into the
    "probably not a NumPy matrix" [ValueError]. *)
Definition init_try (init_val : pyobject A) (mem : bound) : exn + t :=
  match init_val with
  | Array2D a =>
      let '(x, y) := np.shape a in
      if x <=? 0 then inl (ValueError IncorrectShape)
      else inr {| _last_tstep := x - 1; val := np.copy a; memory := mem |}
  | NoPairShape => inl TypeError
  end.

Definition __init__ (init_val : pyobject A) (mem : bound) : exn + t :=
  if bound_lt mem 3 then inl (ValueError MemoryTooSmall)
  else
    match init_try init_val mem with
    | inr self => inr self
    | inl _ => inl (ValueError NotAMatrix)
    end.

Definition time_steps (self : t) : Z := fst (np.shape (val self)).

(** [self.val[0].shape[0]] *)
Definition pos_steps (self : t) : exn + Z :=
  match np.getitem (val self) 0 with
  | inr r => inr (Z.of_nat (length r))
  | inl e => inl e
  end.

Definition current_time_step (self : t) : Z := _last_tstep self.

(** [update] mutates the object statement by statement, so the object
    is returned together with the exception, if one was raised. *)
Definition update (self : t) (newval : list A) : t * option exn :=
  let self1 := {| _last_tstep := _last_tstep self + 1;
                  val := val self; memory := memory self |} in
  match np.vstack (val self1) newval with
  | inl e => (self1, Some e)
  | inr v =>
      let self2 := {| _last_tstep := _last_tstep self1;
                      val := v; memory := memory self1 |} in
      if gt_bound (_last_tstep self2) (memory self2) then
        match np.delete_first_row (val self2) with
        | inl e => (self2, Some e)
        | inr v' =>
            ({| _last_tstep := _last_tstep self2;
                val := v'; memory := memory self2 |}, None)
        end
      else (self2, None)
  end.

Definition get_val_time (self : t) (t : Z) : exn + list A :=
  let tstep :=
    match memory self with
    | Inf => t
    | Fin m => if _last_tstep self <=? m then t
               else t - _last_tstep self + m
    end in
  if (tstep <? 0) && (0 <=? t)
  then inl (ValueError (MemoryRestriction t))
  else np.getitem (val self) tstep.

Definition get_val_pos (self : t) (n : Z) : exn + list A :=
  np.getcolumn (val self) n.

Definition get_last (self : t) : exn + list A :=
  get_val_time self (_last_tstep self).

(** A sequence of calls to [update], left to right, stopping at the
    first one that raises. *)
Fixpoint updates (self : t) (news : list (list A)) : t * option exn :=
  match news with
  | [] => (self, None)
  | newval :: rest =>
      match update self newval with
      | (self', None) => updates self' rest
      | (self', Some e) => (self', Some e)
      end
  end.

(** The objects a program can hold: those the constructor returns for
    an array, and those left behind by a call of [update], whether it
    returned or raised.  No other method assigns an attribute. *)
Inductive reachable : t -> Prop :=
| reach_init (a : np.ndarray A) (mem : bound) (self : t) :
    np.wf a -> __init__ (Array2D a) mem = inr self -> reachable self
| reach_update (self : t) (newval : list A) :
    reachable self -> reachable (fst (update self newval)).

(** The specification's "oldest retained time": 0 during warm-up, and
    [current - memory] once the current time step exceeds [memory]. *)
Definition oldest_retained_time (self : t) : Z :=
match memory self with
| Inf => 0
| Fin m => if _last_tstep self <=? m then 0 else _last_tstep self - m
end.

(** The time step of the first stored row, the stored rows being those
    of the last [time_steps] time steps up to the current one. *)
Definition first_stored_time (self : t) : Z :=
current_time_step self + 1 - time_steps self.

(** [hist] lists, by time step, every row the object was given: the
    object stores what is left of it from the oldest retained time on. *)
Definition tracks (hist : list (list A)) (self : t) : Prop :=
0 <= _last_tstep self /\
_last_tstep self + 1 = Z.of_nat (length hist) /\
bound_lt (memory self) 3 = false /\
np.rows (val self) = drop (Z.to_nat (oldest_retained_time self)) hist.
End Field.
Arguments t : clear implicits.
End OneSpaceField.

(** ** [simulation.py]: class [Simulation], method [run] *)

(** A Python text file object opened for writing: what has been written
    to it, one entry per call of [write], and whether it was closed. *)
Record pyfile : Type := mk_pyfile { content : list string; closed : bool }.

(** What [run] prints when logging is on. *)
Inductive printed : Type :=
| Banner                       (* "SIMULATION:" *)
| Progress (t n : Z)           (* "t/n" *)
| AnimFinalisation             (* "animation finalisation..." *)
| FileFinalisation.            (* "output file finalisation..." *)

Definition newline : string := String "010"%char EmptyString.

(** [s.replace(c, "")] for a one-character [c]. *)
Fixpoint remove_char (c : ascii) (s : string) : string :=
match s with
| EmptyString => EmptyString
| String d rest =>
    if Ascii.eqb d c then remove_char c rest
    else String d (remove_char c rest)
end.

(** [s.count(c)] for a one-character [c]. *)
Fixpoint count_char (c : ascii) (s : string) : nat :=
match s with
| EmptyString => O
| String d rest =>
    if Ascii.eqb d c then S (count_char c rest) else count_char c rest
end.

Module Simulation.
Section Driver.
Context {A : Type}.

(** The collaborators of the driver.  [phystring.py] and [particle.py]
    are not part of the sources at hand, and the text of [str], of the
    headers and of the drawing is left open. *)
Context {Particles Positions Img : Type}.
Context (advance : OneSpaceField.t A -> Particles -> exn + (list A * Particles)).
Context (list_pos : Particles -> Z -> Positions).
Context (str_field : list A -> string) (str_pos : Positions -> string).
Context (idtxtfield idtxtparts : string).
Context (Image_new : Img) (instant_img : Img -> list A -> Positions -> Z -> Img).

(** The [PhyString] object held in [self.s]. *)
Record PhyString : Type := mk_string {
  field : OneSpaceField.t A;
  particles : Particles
}.

(** Modelled from the spec: [PhyString.update], whose source file
    [phystring.py] is missing.  The Field Update Engine produces the
    next row from the buffer and the particle state, and the row is
    appended with [OneSpaceField.update]; when the engine fails the
    buffer is not advanced. *)
Definition PhyString_update (s : PhyString) : PhyString * option exn :=
match advance (field s) (particles s) with
| inl e => (s, Some e)
| inr (row, p) =>
    let '(f, r) := OneSpaceField.update (field s) row in
    ({| field := f; particles := p |}, r)
end.

(** The attributes of [self] that [run] reads. *)
Record t : Type := mk {
  log : bool;
  time_steps : Z;
  s : PhyString
}.

(** Everything [run] reads or changes: the simulation object, the two
    file objects ([None] until opened), the list of frames, the saved
    animations and the console.  [update_calls] records the loop index
    of every call of [self.s.update()]. *)
Record world : Type := mk_world {
  self : t;
  ff : option pyfile;
  pf : option pyfile;
  list_img : list Img;
  saved : list (list Img);
  stdout : list printed;
  update_calls : list Z
}.

(** State and exceptions. *)
Definition M (X : Type) : Type := world -> world * (exn + X).

#[global] Instance M_ret : MRet M := fun X x w => (w, inr x).
#[global] Instance M_bind : MBind M := fun X Y k c w =>
match c w with
| (w', inr x) => k x w'
| (w', inl e) => (w', inl e)
end.

Definition raise {X : Type} (e : exn) : M X := fun w => (w, inl e).
Definition get : M world := fun w => (w, inr w).
Definition modify (g : world -> world) : M unit := fun w => (g w, inr tt).

Definition when (b : bool) (c : M unit) : M unit :=
if b then c else mret tt.

(** [for x in l: body(x)] *)
Fixpoint for_each {X : Type} (l : list X) (body : X -> M unit) : M unit :=
match l with
| [] => mret tt
| x :: rest => body x;; for_each rest body
end.

Definition print (p : printed) : M unit :=
modify (fun w => {| self := self w; ff := ff w; pf := pf w;
                    list_img := list_img w; saved := saved w;
                    stdout := stdout w ++ [p];
                    update_calls := update_calls w |}).

(** [open(name, "w")]: a new, empty, open file object.  The destination
    directory is taken to exist and to be writable. *)
Definition open_w : pyfile := {| content := []; closed := false |}.

(** [f.write(text)] *)
Definition write (f : pyfile) (text : string) : exn + pyfile :=
if closed f then inl (ValueError ClosedFile)
else inr {| content := content f ++ [text]; closed := closed f |}.

(** [f.close()] *)
Definition close (f : pyfile) : pyfile :=
{| content := content f; closed := true |}.

Definition set_ff (f : option pyfile) : M unit :=
modify (fun w => {| self := self w; ff := f; pf := pf w;
                    list_img := list_img w; saved := saved w;
                    stdout := stdout w; update_calls := update_calls w |}).

Definition set_pf (f : option pyfile) : M unit :=
modify (fun w => {| self := self w; ff := ff w; pf := f;
                    list_img := list_img w; saved := saved w;
                    stdout := stdout w; update_calls := update_calls w |}).

(** [ff.write(text)] and [pf.write(text)] *)
Definition ff_write (text : string) : M unit :=
w ← get;
match ff w with
| None => raise UnboundLocalError
| Some f =>
    match write f text with
    | inl e => raise e
    | inr f' => set_ff (Some f')
    end
end.

Definition pf_write (text : string) : M unit :=
w ← get;
match pf w with
| None => raise UnboundLocalError
| Some f =>
    match write f text with
    | inl e => raise e
    | inr f' => set_pf (Some f')
    end
end.

(** [self.s.update()], called at loop index [t] *)
Definition s_update (t : Z) : M unit := fun w =>
let '(s', r) := PhyString_update (s (self w)) in
let w' := {| self := {| log := log (self w);
                        time_steps := time_steps (self w); s := s' |};
             ff := ff w; pf := pf w;
             list_img := list_img w; saved := saved w;
             stdout := stdout w;
             update_calls := update_calls w ++ [t] |} in
match r with
| Some e => (w', inl e)
| None => (w', inr tt)
end.

(** [self.s.field.get_val_time(t)] *)
Definition field_get_val_time (t : Z) : M (list A) := fun w =>
(w, OneSpaceField.get_val_time (field (s (self w))) t).

(** [self.s.particles.list_pos(tstep=t)] *)
Definition particles_list_pos (t : Z) : M Positions := fun w =>
(w, inr (list_pos (particles (s (self w))) t)).

(** [list_img.append(img)] *)
Definition list_img_append (img : Img) : M unit :=
modify (fun w => {| self := self w; ff := ff w; pf := pf w;
                    list_img := list_img w ++ [img]; saved := saved w;
                    stdout := stdout w; update_calls := update_calls w |}).

(** [list2str]: [str(l)] without brackets and line breaks. *)
Definition list2str (text : string) : string :=
remove_char "010"%char (remove_char "]"%char (remove_char "["%char text)).

(** [create_anim]: [list_images[0]] raises on an empty list; otherwise
    the frames are saved as one animation. *)
Definition create_anim : M unit :=
w ← get;
match list_img w with
| [] => raise IndexError
| _ :: _ =>
    modify (fun w => {| self := self w; ff := ff w; pf := pf w;
                        list_img := list_img w;
                        saved := saved w ++ [list_img w];
                        stdout := stdout w;
                        update_calls := update_calls w |})
end.

(** [print(...) if self.log else None] *)
Definition print_if_log (p : t -> printed) : M unit :=
w ← get;
when (log (self w)) (print (p (self w))).

(** [list_img = []] *)
Definition list_img_reset : M unit :=
modify (fun w => {| self := self w; ff := ff w; pf := pf w;
                    list_img := []; saved := saved w;
                    stdout := stdout w; update_calls := update_calls w |}).

(** One turn of the [for] loop of [run]. *)
Definition step (anim file : bool) (template_anim : Img) (t : Z) : M unit :=
when (t >? 1) (s_update t);;
f ← field_get_val_time t;
pp ← particles_list_pos t;
when anim (list_img_append (instant_img template_anim f pp t));;
when file (ff_write (list2str (str_field f) +:+ newline);;
           pf_write (list2str (str_pos pp) +:+ newline));;
print_if_log (fun self => Progress t (time_steps self)).

Definition run (anim file : bool) : M unit :=
print_if_log (fun _ => Banner);;
when file (set_ff (Some open_w);;
           set_pf (Some open_w);;
           ff_write idtxtfield;;
           pf_write idtxtparts);;
let template_anim := Image_new in
list_img_reset;;
w ← get;
for_each (seqZ 0 (time_steps (self w))) (step anim file template_anim);;
when anim (print_if_log (fun _ => AnimFinalisation);; create_anim);;
when file (print_if_log (fun _ => FileFinalisation)).

(** A property of the world that a computation keeps, whether it
    returns or raises. *)
Definition preserves {X : Type} (P : world -> Prop) (c : M X) : Prop :=
forall w, P w -> P (fst (c w)).

(** Both file objects exist and are open. *)
Definition files_open (w : world) : Prop :=
exists cf cp,
  ff w = Some {| content := cf; closed := false |} /\
  pf w = Some {| content := cp; closed := false |}.

(** The string object after [k] calls of [update]. *)
Fixpoint updated (k : nat) (s0 : PhyString) : PhyString :=
match k with
| O => s0
| S k' => fst (PhyString_update (updated k' s0))
end.

(** What the turn with loop index [t] writes to the two files when
    [run] starts on the string object [s0]: the row and the positions
    read at [t], after the updates of the turns up to [t]. *)
Definition field_line (s0 : PhyString) (t : Z) (line : string) : Prop :=
exists row,
  OneSpaceField.get_val_time (field (updated (Z.to_nat (t - 1)) s0)) t = inr row /\
  line = list2str (str_field row) +:+ newline.

Definition particles_line (s0 : PhyString) (t : Z) (line : string) : Prop :=
line = list2str (str_pos (list_pos (particles (updated (Z.to_nat (t - 1)) s0)) t))
       +:+ newline.
End Driver.
End Simulation.

(** ** Sample inputs *)

(** Five rows of one cell, the row for time [t] holding [t]. *)
Definition five_rows : np.ndarray Z :=
{| np.ncols := 1; np.rows := [[0]; [1]; [2]; [3]; [4]] |}.

(** One row without cells: an array of shape [(1, 0)]. *)
Definition one_empty_row : np.ndarray Z :=
{| np.ncols := 0; np.rows := [[]] |}.

(** Two rows of two cells. *)
Definition two_by_two : np.ndarray Z :=
{| np.ncols := 2; np.rows := [[0; 1]; [2; 3]] |}.

(** The object built from [two_by_two] with [memory = 3], and the same
    object after three more rows, when it is past the bound. *)
Definition young_field : OneSpaceField.t Z :=
{| OneSpaceField._last_tstep := 1;
   OneSpaceField.val := two_by_two;
   OneSpaceField.memory := Fin 3 |}.

Definition old_field : OneSpaceField.t Z :=
fst (OneSpaceField.updates young_field [[4; 5]; [6; 7]; [8; 9]]).

(** A driver set-up for the five-step scenario: an engine whose row
    for time [t] holds [t] in every cell, no particles, no drawing,
    and fixed texts. *)
Definition sample_advance (f : OneSpaceField.t Z) (p : unit)
  : exn + (list Z * unit) :=
inr (replicate (np.ncols (OneSpaceField.val f))
               (OneSpaceField._last_tstep f + 1), p).

Definition sample_list_pos (p : unit) (t : Z) : list Z := [].

Definition sample_str_field (row : list Z) : string :=
match row with
| [] => "[]"
| x :: _ => if x =? 0 then "[0 1]" else "[n n]"
end.

Definition sample_str_pos (pp : list Z) : string := "[]".

Definition sample_world (n : Z) : @Simulation.world Z unit unit :=
{| Simulation.self :=
     {| Simulation.log := false;
        Simulation.time_steps := n;
        Simulation.s := {| Simulation.field := young_field;
                           Simulation.particles := tt |} |};
   Simulation.ff := None;
   Simulation.pf := None;
   Simulation.list_img := [];
   Simulation.saved := [];
   Simulation.stdout := [];
   Simulation.update_calls := [] |}.

Definition sample_run (anim file : bool) (n : Z)
  : @Simulation.world Z unit unit * (exn + unit) :=
Simulation.run sample_advance sample_list_pos sample_str_field sample_str_pos
  "field header" "particles header" tt (fun img _ _ _ => img)
  anim file (sample_world n).

(** A driver whose buffer was seeded with a single row, and an engine
    that always fails. *)
Definition single_seed_world : @Simulation.world Z unit unit :=
{| Simulation.self :=
     {| Simulation.log := false;
        Simulation.time_steps := 2;
        Simulation.s :=
          {| Simulation.field :=
               {| OneSpaceField._last_tstep := 0;
                  OneSpaceField.val := one_empty_row;
                  OneSpaceField.memory := Fin 3 |};
             Simulation.particles := tt |} |};
   Simulation.ff := None;
   Simulation.pf := None;
   Simulation.list_img := [];
   Simulation.saved := [];
   Simulation.stdout := [];
   Simulation.update_calls := [] |}.

Definition failing_advance (f : OneSpaceField.t Z) (p : unit)
  : exn + (list Z * unit) :=
inl TypeError.

(** ** Facts about the array fragment *)

Section ArrayFacts.
Context {A : Type}.
Implicit Types (a : np.ndarray A) (r : list A).

Lemma axis_index_front (len : nat) (i : Z) :
  0 <= i < Z.of_nat len -> np.axis_index len i = Some (Z.to_nat i).
Proof.
  intros [H0 H1]. unfold np.axis_index.
  apply Z.leb_le in H0. apply Z.ltb_lt in H1. now rewrite H0, H1.
Qed.

Lemma axis_index_back (len : nat) (i : Z) :
  - Z.of_nat len <= i < 0 ->
  np.axis_index len i = Some (Z.to_nat (Z.of_nat len + i)).
Proof.
  intros [H0 H1]. unfold np.axis_index.
  destruct (Z.leb_spec 0 i); [lia|].
  destruct (Z.leb_spec (- Z.of_nat len) i); [reflexivity|lia].
Qed.

Lemma axis_index_None (len : nat) (i : Z) :
  np.axis_index len i = None <-> ~ (- Z.of_nat len <= i < Z.of_nat len).
Proof.
  unfold np.axis_index.
  destruct (Z.leb_spec 0 i); [destruct (Z.ltb_spec i (Z.of_nat len))|
                              destruct (Z.leb_spec (- Z.of_nat len) i)];
    split; intros; try discriminate; try lia; reflexivity.
Qed.

Lemma axis_index_lt (len : nat) (i : Z) (k : nat) :
  np.axis_index len i = Some k -> (k < len)%nat.
Proof.
  unfold np.axis_index.
  destruct (Z.leb_spec 0 i); [destruct (Z.ltb_spec i (Z.of_nat len))|
                              destruct (Z.leb_spec (- Z.of_nat len) i)];
    intros [= <-]; lia.
Qed.

Lemma getitem_front a (i : Z) r :
  0 <= i -> np.rows a !! Z.to_nat i = Some r -> np.getitem a i = inr r.
Proof.
  intros Hi Hr. unfold np.getitem.
  rewrite axis_index_front.
  - now rewrite Hr.
  - apply lookup_lt_Some in Hr. lia.
Qed.

Lemma wf_vstack a r a' :
  np.wf a -> np.vstack a r = inr a' ->
  np.wf a' /\ np.ncols a' = np.ncols a /\ np.rows a' = np.rows a ++ [r].
Proof.
  unfold np.vstack, np.wf. intros Hwf.
  destruct (Nat.eqb_spec (length r) (np.ncols a)) as [Hlen|]; [|discriminate].
  intros [= <-]. simpl. split; [|easy].
  apply Forall_app. split; [exact Hwf|]. now constructor.
Qed.

Lemma wf_column a (j : nat) :
  np.wf a -> (j < np.ncols a)%nat ->
  exists c, mapM (fun r : list A => r !! j) (np.rows a) = Some c.
Proof.
  intros Hwf Hj. apply mapM_is_Some.
  eapply Forall_impl; [exact Hwf|].
  intros r Hr. apply lookup_lt_is_Some. simpl in Hr. lia.
Qed.
End ArrayFacts.

(** ** Facts about [OneSpaceField] *)

Section FieldFacts.
Context {A : Type}.
Import OneSpaceField.
Implicit Types (self : OneSpaceField.t A) (a : np.ndarray A).
Implicit Types (newval row : list A) (news : list (list A)).

(** The result of [update] on a row of the right width. *)
Lemma update_ok self newval :
  length newval = np.ncols (val self) ->
  update self newval =
    ({| _last_tstep := _last_tstep self + 1;
        val := {| np.ncols := np.ncols (val self);
                  np.rows :=
                    if gt_bound (_last_tstep self + 1) (memory self)
                    then tail (np.rows (val self) ++ [newval])
                    else np.rows (val self) ++ [newval] |};
        memory := memory self |}, None).
Proof.
  intros Hlen. unfold update, np.vstack. simpl.
  apply Nat.eqb_eq in Hlen. rewrite Hlen. simpl.
  destruct (gt_bound _ _); [|reflexivity].
  unfold np.delete_first_row. simpl.
  destruct (np.rows (val self)); reflexivity.
Qed.

(** The result of [update] on a row of another width. *)
Lemma update_mismatch self newval :
  length newval <> np.ncols (val self) ->
  update self newval =
    ({| _last_tstep := _last_tstep self + 1;
        val := val self; memory := memory self |},
     Some (ValueError DimensionMismatch)).
Proof.
  intros Hlen. unfold update, np.vstack. simpl.
  apply Nat.eqb_neq in Hlen. now rewrite Hlen.
Qed.

Lemma update_cases self newval :
  length newval = np.ncols (val self) \/ length newval <> np.ncols (val self).
Proof. destruct (Nat.eq_dec (length newval) (np.ncols (val self))); auto. Qed.

Lemma update_current_time self newval :
  current_time_step (fst (update self newval)) = current_time_step self + 1.
Proof.
  destruct (update_cases self newval) as [H|H].
  - now rewrite update_ok.
  - now rewrite update_mismatch.
Qed.

Lemma update_memory self newval :
  memory (fst (update self newval)) = memory self.
Proof.
  destruct (update_cases self newval) as [H|H].
  - now rewrite update_ok.
  - now rewrite update_mismatch.
Qed.

Lemma update_ncols self newval :
  np.ncols (val (fst (update self newval))) = np.ncols (val self).
Proof.
  destruct (update_cases self newval) as [H|H].
  - now rewrite update_ok.
  - now rewrite update_mismatch.
Qed.

Lemma tail_snoc {X : Type} (l : list X) (x : X) :
  l <> [] -> tail (l ++ [x]) = tail l ++ [x].
Proof. now destruct l. Qed.

(** [update] keeps the array rectangular and never empties it. *)
Lemma update_wf self newval :
  np.wf (val self) -> np.wf (val (fst (update self newval))).
Proof.
  intros Hwf. destruct (update_cases self newval) as [H|H].
  - rewrite update_ok by exact H. unfold np.wf in *. simpl.
    assert (Forall (fun r => length r = np.ncols (val self))
                   (np.rows (val self) ++ [newval])) as Hall.
    { apply Forall_app. split; [exact Hwf|]. now constructor. }
    destruct (gt_bound _ _); [|exact Hall].
    destruct (np.rows (val self) ++ [newval]); [constructor|].
    now inversion Hall.
  - now rewrite update_mismatch.
Qed.

Lemma update_nonempty self newval :
  np.rows (val self) <> [] -> np.rows (val (fst (update self newval))) <> [].
Proof.
  intros Hne. destruct (update_cases self newval) as [H|H].
  - rewrite update_ok by exact H. simpl.
    destruct (gt_bound _ _).
    + rewrite tail_snoc by exact Hne. now destruct (tail (np.rows (val self))).
    + now destruct (np.rows (val self)).
  - now rewrite update_mismatch.
Qed.

(** What the constructor returns for an array with at least one row. *)
Lemma init_ok a (mem : bound) :
  bound_lt mem 3 = false -> np.rows a <> [] ->
  __init__ (Array2D a) mem =
    inr {| _last_tstep := Z.of_nat (length (np.rows a)) - 1;
           val := a; memory := mem |}.
Proof.
  intros Hmem Hne. unfold __init__, init_try, np.shape. rewrite Hmem.
  destruct (Z.leb_spec (Z.of_nat (length (np.rows a))) 0) as [Hle|_].
  - destruct (np.rows a); [easy|simpl in Hle; lia].
  - now destruct a.
Qed.

Lemma init_inv (init_val : pyobject A) (mem : bound) self :
  __init__ init_val mem = inr self ->
  exists a, init_val = Array2D a /\ np.rows a <> [] /\ bound_lt mem 3 = false /\
            self = {| _last_tstep := Z.of_nat (length (np.rows a)) - 1;
                      val := a; memory := mem |}.
Proof.
  unfold __init__. destruct (bound_lt mem 3) eqn:Hmem; [discriminate|].
  destruct init_val as [a|]; [|discriminate]. intros Hinit.
  assert (np.rows a <> []) as Hne.
  { intros Hnil. unfold init_try, np.shape in Hinit. rewrite Hnil in Hinit.
    discriminate. }
  exists a. repeat split; try assumption.
  pose proof (init_ok a mem Hmem Hne) as Hok. unfold __init__ in Hok.
  rewrite Hmem in Hok. congruence.
Qed.

Lemma reachable_inv self :
  reachable self -> np.wf (val self) /\ np.rows (val self) <> [].
Proof.
  induction 1 as [a mem self Hwf Hinit|self newval _ [IHwf IHne]].
  - apply init_inv in Hinit as (a' & [= <-] & Hne & _ & ->). now split.
  - split; [now apply update_wf|now apply update_nonempty].
Qed.

Lemma pos_steps_reachable self :
  reachable self -> pos_steps self = inr (Z.of_nat (np.ncols (val self))).
Proof.
  intros Hr. apply reachable_inv in Hr as [Hwf Hne]. unfold pos_steps.
  destruct (np.rows (val self)) as [|r rest] eqn:Hrows; [easy|].
  rewrite (getitem_front _ 0 r); [|lia|now rewrite Hrows].
  unfold np.wf in Hwf. rewrite Hrows in Hwf. inversion Hwf; subst.
  now f_equal; f_equal.
Qed.

(** A run of [update] over rows of the right width never raises, and
    advances the time step once per row. *)
Lemma updates_ok news : forall self,
  Forall (fun r => length r = np.ncols (val self)) news ->
  exists self',
    updates self news = (self', None) /\
    current_time_step self' = current_time_step self + Z.of_nat (length news) /\
    memory self' = memory self /\
    np.ncols (val self') = np.ncols (val self).
Proof.
  induction news as [|newval rest IH]; intros self Hall.
  - exists self. simpl. repeat split. unfold current_time_step. lia.
  - inversion Hall as [|? ? Hlen Hrest]; subst.
    pose proof (update_current_time self newval) as Hcur.
    pose proof (update_memory self newval) as Hmem.
    pose proof (update_ncols self newval) as Hcols.
    simpl. rewrite update_ok in * by exact Hlen. simpl in Hcur, Hmem, Hcols.
    match goal with |- context [updates ?s rest] => destruct (IH s) as (self' & Hrun & Hc & Hm & Hn) end.
    { exact Hrest. }
    exists self'. rewrite Hrun. split; [reflexivity|].
    unfold current_time_step in *. simpl in *.
    repeat split; try congruence. lia.
Qed.

(** C10. [update] is not atomic: a row whose length differs from the
    width of the stored array makes the stacking step raise
    [ValueError], after the time step has been incremented.  The rows
    and their number are as before, the current time step is one more. *)
Theorem update_not_atomic_on_failure self newval :
  length newval <> np.ncols (val self) ->
  exists self',
    update self newval = (self', Some (ValueError DimensionMismatch)) /\
    val self' = val self /\
    time_steps self' = time_steps self /\
    current_time_step self' = current_time_step self + 1.
Proof.
  intros Hlen. eexists. split; [now apply update_mismatch|].
  now repeat split.
Qed.

(** C4. A constructor call on an array of [r >= 1] rows with an integer
    [memory >= 3] returns an object whose current time step is [r - 1];
    after [k] rows of the array's width have been appended, none of the
    calls having raised, it is [r - 1 + k]; and a single call of
    [update] always moves it up by exactly one. *)
Theorem current_time_arithmetic a (m : Z) news :
  np.wf a -> np.rows a <> [] -> 3 <= m ->
  Forall (fun r => length r = np.ncols a) news ->
  exists self0 self,
    __init__ (Array2D a) (Fin m) = inr self0 /\
    current_time_step self0 = Z.of_nat (length (np.rows a)) - 1 /\
    updates self0 news = (self, None) /\
    current_time_step self =
      Z.of_nat (length (np.rows a)) - 1 + Z.of_nat (length news) /\
    forall newval,
      current_time_step (fst (update self newval)) = current_time_step self + 1.
Proof.
  intros Hwf Hne Hm Hall.
  assert (bound_lt (Fin m) 3 = false) as Hb by (simpl; lia).
  pose proof (init_ok a (Fin m) Hb Hne) as Hinit.
  eexists. 
  edestruct (updates_ok news) as (self & Hrun & Hcur & _); [|
    exists self; split; [exact Hinit|]; split; [reflexivity|];
    split; [exact Hrun|]; split; [exact Hcur|]].
  - exact Hall.
  - intros newval. apply update_current_time.
Qed.

(** C6, as the code has it.  The constructor raises the "memory"
    [ValueError] when [memory < 3]; otherwise it raises the "not a NumPy
    matrix" [ValueError] when the argument is not a two-dimensional
    array or has no row; otherwise, whatever the width of the rows, it
    returns an object that stores a copy of the array. *)
Theorem construct_validation (init_val : pyobject A) (m : Z) :
  (m < 3 /\ __init__ init_val (Fin m) = inl (ValueError MemoryTooSmall))
  \/ (3 <= m /\
      (init_val = NoPairShape \/
       exists a, init_val = Array2D a /\ np.rows a = []) /\
      __init__ init_val (Fin m) = inl (ValueError NotAMatrix))
  \/ (3 <= m /\
      exists a, init_val = Array2D a /\ np.rows a <> [] /\
        __init__ init_val (Fin m) =
          inr {| _last_tstep := Z.of_nat (length (np.rows a)) - 1;
                 val := a; memory := Fin m |}).
Proof.
  destruct (Z.lt_ge_cases m 3) as [Hm|Hm].
  - left. split; [exact Hm|]. unfold __init__. simpl.
    now destruct (Z.ltb_spec m 3); [|lia].
  - right. assert (bound_lt (Fin m) 3 = false) as Hb by (simpl; lia).
    destruct init_val as [a|].
    + assert (np.rows a = [] \/ np.rows a <> []) as [Hrows|Hne]
        by (destruct (np.rows a); [now left|now right]).
      * left. split; [exact Hm|]. split; [right; now exists a|].
        unfold __init__, init_try, np.shape. rewrite Hb, Hrows. reflexivity.
      * right. split; [exact Hm|]. exists a.
        split; [reflexivity|]. split; [exact Hne|]. now apply init_ok.
    + left. split; [exact Hm|]. split; [now left|].
      unfold __init__. now rewrite Hb.
Qed.

(** The storage index [get_val_time] computes for [oldest + i]. *)
Lemma get_val_time_offset self (i : nat) row :
  np.rows (val self) !! i = Some row ->
  get_val_time self (oldest_retained_time self + Z.of_nat i) = inr row.
Proof.
  intros Hrow. unfold get_val_time, oldest_retained_time.
  assert (forall t, 0 <= t ->
            (if (Z.of_nat i <? 0) && (0 <=? t)
             then inl (ValueError (MemoryRestriction t))
             else np.getitem (val self) (Z.of_nat i)) = inr row) as Hget.
  { intros t _. destruct (Z.ltb_spec (Z.of_nat i) 0); [lia|]. simpl.
    apply getitem_front; [lia|]. now rewrite Nat2Z.id. }
  destruct (memory self) as [m|].
  - destruct (Z.leb_spec (_last_tstep self) m).
    + rewrite Z.add_0_l. apply Hget. lia.
    + replace (_last_tstep self - m + Z.of_nat i - _last_tstep self + m)
        with (Z.of_nat i) by lia.
      apply Hget. lia.
  - rewrite Z.add_0_l. apply Hget. lia.
Qed.

(** C2. Once the current time step exceeds an integer [memory], the
    row at time [current - memory] is returned (it is the first stored
    row), while time [current - memory - 1], and every time [t >= 0]
    whose storage index [t - current + memory] is negative, raises the
    "memory restriction" [ValueError]. *)
Theorem retention_boundary self (m : Z) :
  reachable self -> memory self = Fin m -> current_time_step self > m ->
  (exists row, np.rows (val self) !! 0%nat = Some row /\
     get_val_time self (current_time_step self - m) = inr row) /\
  get_val_time self (current_time_step self - m - 1) =
    inl (ValueError (MemoryRestriction (current_time_step self - m - 1))) /\
  (forall t, 0 <= t -> t - current_time_step self + m < 0 ->
     get_val_time self t = inl (ValueError (MemoryRestriction t))).
Proof.
  intros Hreach Hmem Hsteady. unfold current_time_step in *.
  apply reachable_inv in Hreach as [_ Hne].
  assert (forall t, 0 <= t -> t - _last_tstep self + m < 0 ->
            get_val_time self t = inl (ValueError (MemoryRestriction t))) as Hold.
  { intros t Ht Hneg. unfold get_val_time. rewrite Hmem.
    destruct (Z.leb_spec (_last_tstep self) m); [lia|].
    destruct (Z.ltb_spec (t - _last_tstep self + m) 0); [|lia].
    now destruct (Z.leb_spec 0 t); [|lia]. }
  split; [|split; [apply Hold; lia|exact Hold]].
  destruct (np.rows (val self)) as [|row rest] eqn:Hrows; [easy|].
  exists row. split; [reflexivity|].
  pose proof (get_val_time_offset self 0 row) as Hget.
  unfold oldest_retained_time in Hget. rewrite Hmem in Hget.
  destruct (Z.leb_spec (_last_tstep self) m); [lia|].
  rewrite Z.add_0_r in Hget. apply Hget. now rewrite Hrows.
Qed.


(** *** The stored rows as a window on the history *)

Lemma tail_drop {X : Type} (l : list X) (d : nat) :
  tail (drop d l) = drop (S d) l.
Proof.
  revert l. induction d as [|d IH]; intros [|x l]; simpl; try reflexivity.
  apply IH.
Qed.

Lemma oldest_retained_time_range self :
  bound_lt (memory self) 3 = false -> 0 <= _last_tstep self ->
  0 <= oldest_retained_time self <= _last_tstep self.
Proof.
  unfold oldest_retained_time. destruct (memory self) as [m|]; simpl; [|lia].
  destruct (Z.leb_spec (_last_tstep self) m); lia.
Qed.

Lemma tracks_init a (mem : bound) :
  bound_lt mem 3 = false -> np.rows a <> [] ->
  (forall m, mem = Fin m -> Z.of_nat (length (np.rows a)) <= m + 1) ->
  tracks (np.rows a)
    {| _last_tstep := Z.of_nat (length (np.rows a)) - 1;
       val := a; memory := mem |}.
Proof.
  intros Hmem Hne Hsmall. unfold tracks, oldest_retained_time. simpl.
  assert (length (np.rows a) <> 0%nat) by now destruct (np.rows a).
  split; [lia|]. split; [lia|]. split; [exact Hmem|].
  destruct mem as [m|]; [|reflexivity].
  specialize (Hsmall m eq_refl).
  now destruct (Z.leb_spec (Z.of_nat (length (np.rows a)) - 1) m); [|lia].
Qed.

Lemma tracks_update hist self newval :
  tracks hist self -> length newval = np.ncols (val self) ->
  tracks (hist ++ [newval]) (fst (update self newval)).
Proof.
  intros (Hpos & Hlen & Hmem & Hrows) Hw. rewrite update_ok by exact Hw.
  pose proof (oldest_retained_time_range self Hmem Hpos) as Hrange.
  unfold tracks, oldest_retained_time in *. simpl.
  rewrite length_app. simpl. split; [lia|]. split; [lia|]. split; [exact Hmem|].
  rewrite Hrows. clear Hrows.
  destruct (memory self) as [m|]; simpl in *.
  - destruct (Z.leb_spec (_last_tstep self) m) as [Hle|Hgt];
      destruct (Z.leb_spec (_last_tstep self + 1) m) as [Hle'|Hgt'];
      destruct (Z.gtb_spec (_last_tstep self + 1) m); try lia;
      simpl; try reflexivity.
    + replace (Z.to_nat (_last_tstep self + 1 - m)) with 1%nat by lia.
      now destruct hist.
    + replace (Z.to_nat (_last_tstep self + 1 - m))
        with (S (Z.to_nat (_last_tstep self - m))) by lia.
      rewrite drop_app_le by lia. rewrite <- tail_drop.
      apply tail_snoc. intros Hnil.
      apply (f_equal length) in Hnil. rewrite length_drop in Hnil.
      simpl in Hnil. lia.
  - reflexivity.
Qed.

(** Round trip, for an object that holds a window on its history: a
    time step between the oldest retained one and the current one gives
    back the row that was stored for it. *)
Lemma tracks_get_val_time hist self (t : Z) :
  tracks hist self ->
  oldest_retained_time self <= t <= current_time_step self ->
  exists row, hist !! Z.to_nat t = Some row /\ get_val_time self t = inr row.
Proof.
  intros (Hpos & Hlen & Hmem & Hrows) Ht. unfold current_time_step in Ht.
  pose proof (oldest_retained_time_range self Hmem Hpos) as Hrange.
  destruct (lookup_lt_is_Some_2 hist (Z.to_nat t)) as [row Hrow]; [lia|].
  exists row. split; [exact Hrow|].
  replace t with (oldest_retained_time self
                  + Z.of_nat (Z.to_nat (t - oldest_retained_time self))) by lia.
  apply get_val_time_offset. rewrite Hrows, lookup_drop.
  now replace (Z.to_nat (oldest_retained_time self)
                 + Z.to_nat (t - oldest_retained_time self))%nat
    with (Z.to_nat t) by lia.
Qed.

(** The first stored row of such an object is the one for the oldest
    retained time. *)
Lemma tracks_time_steps hist self :
  tracks hist self ->
  time_steps self = current_time_step self + 1 - oldest_retained_time self.
Proof.
  intros (Hpos & Hlen & Hmem & Hrows).
  pose proof (oldest_retained_time_range self Hmem Hpos) as Hrange.
  unfold time_steps, current_time_step, np.shape. simpl.
  rewrite Hrows, length_drop. lia.
Qed.

(** *** The number of stored rows *)

Lemma updates_cons_ok self newval news :
  length newval = np.ncols (val self) ->
  updates self (newval :: news) = updates (fst (update self newval)) news.
Proof. intros Hlen. simpl. now rewrite update_ok. Qed.

Lemma updates_reachable news : forall self,
  reachable self -> reachable (fst (updates self news)).
Proof.
  induction news as [|newval rest IH]; intros self Hreach; [exact Hreach|].
  simpl. pose proof (reach_update self newval Hreach) as Hstep.
  destruct (update self newval) as [self' [e|]]; [exact Hstep|].
  now apply IH.
Qed.

(** One more row is stored unless the new time step exceeds [memory]. *)
Lemma update_time_steps self newval :
  length newval = np.ncols (val self) -> np.rows (val self) <> [] ->
  time_steps (fst (update self newval)) =
    if gt_bound (_last_tstep self + 1) (memory self)
    then time_steps self else time_steps self + 1.
Proof.
  intros Hlen Hne. rewrite update_ok by exact Hlen.
  unfold time_steps, np.shape. simpl.
  destruct (gt_bound _ _).
  - rewrite tail_snoc by exact Hne. rewrite length_app. simpl.
    destruct (np.rows (val self)); [easy|simpl; lia].
  - rewrite length_app. simpl. lia.
Qed.

(** [update] drops the first stored row exactly when the new time step
    exceeds [memory]. *)
Lemma update_rows self newval :
  length newval = np.ncols (val self) -> np.rows (val self) <> [] ->
  np.rows (val (fst (update self newval))) =
    if gt_bound (_last_tstep self + 1) (memory self)
    then tail (np.rows (val self)) ++ [newval]
    else np.rows (val self) ++ [newval].
Proof.
  intros Hlen Hne. rewrite update_ok by exact Hlen. simpl.
  destruct (gt_bound _ _); [now apply tail_snoc|reflexivity].
Qed.

Lemma updates_warmup (m : Z) news : forall self,
  memory self = Fin m -> np.rows (val self) <> [] ->
  Forall (fun r => length r = np.ncols (val self)) news ->
  _last_tstep self + Z.of_nat (length news) <= m ->
  np.rows (val (fst (updates self news))) = np.rows (val self) ++ news.
Proof.
  induction news as [|newval rest IH]; intros self Hmem Hne Hall Hwarm.
  - simpl. now rewrite app_nil_r.
  - inversion Hall as [|? ? Hlen Hrest]; subst.
    rewrite updates_cons_ok by exact Hlen.
    rewrite IH.
    + rewrite update_rows by assumption. rewrite Hmem. simpl.
      destruct (Z.gtb_spec (_last_tstep self + 1) m).
      * simpl in Hwarm. lia.
      * now rewrite <- app_assoc.
    + now rewrite update_memory.
    + now apply update_nonempty.
    + now rewrite update_ncols.
    + pose proof (update_current_time self newval) as Hcur.
      unfold current_time_step in Hcur. simpl in Hwarm. lia.
Qed.

Lemma updates_time_steps (r m : Z) news : forall self,
  memory self = Fin m -> np.rows (val self) <> [] ->
  Forall (fun r => length r = np.ncols (val self)) news ->
  r - 1 <= _last_tstep self ->
  time_steps self =
    (if _last_tstep self <=? m then _last_tstep self + 1 else Z.max r (m + 1)) ->
  time_steps (fst (updates self news)) =
    (if _last_tstep self + Z.of_nat (length news) <=? m
     then _last_tstep self + Z.of_nat (length news) + 1
     else Z.max r (m + 1)).
Proof.
  induction news as [|newval rest IH]; intros self Hmem Hne Hall Hr Hext.
  - simpl. now rewrite Z.add_0_r.
  - inversion Hall as [|? ? Hlen Hrest]; subst.
    rewrite updates_cons_ok by exact Hlen.
    pose proof (update_current_time self newval) as Hcur.
    unfold current_time_step in Hcur.
    rewrite IH.
    + rewrite Hcur.
      now replace (_last_tstep self + 1 + Z.of_nat (length rest))
        with (_last_tstep self + Z.of_nat (length (newval :: rest)))
        by (simpl length; lia).
    + now rewrite update_memory.
    + now apply update_nonempty.
    + now rewrite update_ncols.
    + lia.
    + rewrite update_time_steps by assumption. rewrite Hcur, Hmem, Hext.
      simpl.
      destruct (Z.gtb_spec (_last_tstep self + 1) m);
        destruct (Z.leb_spec (_last_tstep self) m);
        destruct (Z.leb_spec (_last_tstep self + 1) m); lia.
Qed.

(** C1, as the code has it.  Take an array of [r >= 1] rows, an
    integer [memory >= 3] and any rows of the array's width: the
    constructor and every [update] return.  As long as the current time
    step is at most [memory] nothing has been dropped: the stored rows
    are the initial rows followed by the appended ones, [r] plus the
    number of appends in all.  Once the current time step exceeds
    [memory], a further [update] drops the first stored row and adds
    the new one, so the number of stored rows stays the same; that
    number is the larger of [r] and [memory + 1], hence [memory + 1]
    whenever the initial array had at most [memory + 1] rows. *)
Theorem storage_extent a (m : Z) news :
  np.wf a -> np.rows a <> [] -> 3 <= m ->
  Forall (fun r => length r = np.ncols a) news ->
  exists self0 self,
    __init__ (Array2D a) (Fin m) = inr self0 /\
    updates self0 news = (self, None) /\
    (current_time_step self <= m ->
       np.rows (val self) = np.rows a ++ news /\
       time_steps self =
         Z.of_nat (length (np.rows a)) + Z.of_nat (length news)) /\
    (current_time_step self > m ->
       time_steps self = Z.max (Z.of_nat (length (np.rows a))) (m + 1) /\
       forall newval, length newval = np.ncols a ->
         exists self',
           update self newval = (self', None) /\
           np.rows (val self') = tail (np.rows (val self)) ++ [newval] /\
           time_steps self' = time_steps self).
Proof.
  intros Hwf Hne Hm Hall.
  assert (bound_lt (Fin m) 3 = false) as Hb by (simpl; lia).
  pose proof (init_ok a (Fin m) Hb Hne) as Hinit.
  set (self0 := {| _last_tstep := Z.of_nat (length (np.rows a)) - 1;
                   val := a; memory := Fin m |}) in *.
  assert (reachable self0) as Hreach0 by (eapply reach_init; eassumption).
  destruct (updates_ok news self0 Hall) as (self & Hrun & Hcur & Hmem & Hcols).
  pose proof (updates_reachable news self0 Hreach0) as Hreach.
  rewrite Hrun in Hreach. simpl in Hreach.
  apply reachable_inv in Hreach as [_ Hne'].
  pose proof (updates_time_steps (Z.of_nat (length (np.rows a))) m news self0
                eq_refl Hne Hall) as Hext.
  rewrite Hrun in Hext. simpl in Hext.
  unfold current_time_step in *. simpl in Hcur, Hmem, Hcols.
  exists self0, self. split; [exact Hinit|]. split; [exact Hrun|]. split.
  - intros Hwarm. split.
    + pose proof (updates_warmup m news self0 eq_refl Hne Hall) as Hrows.
      rewrite Hrun in Hrows. simpl in Hrows. apply Hrows. lia.
    + rewrite Hext.
      * destruct (Z.leb_spec
                    (Z.of_nat (length (np.rows a)) - 1 + Z.of_nat (length news)) m);
          lia.
      * lia.
      * unfold time_steps, np.shape. simpl.
        destruct (Z.leb_spec (Z.of_nat (length (np.rows a)) - 1) m); lia.
  - intros Hsteady. split.
    + rewrite Hext.
      * destruct (Z.leb_spec
                    (Z.of_nat (length (np.rows a)) - 1 + Z.of_nat (length news)) m);
          lia.
      * lia.
      * unfold time_steps, np.shape. simpl.
        destruct (Z.leb_spec (Z.of_nat (length (np.rows a)) - 1) m); lia.
    + intros newval Hlen. rewrite <- Hcols in Hlen.
      exists (fst (update self newval)).
      split; [now rewrite update_ok|].
      rewrite update_rows, update_time_steps by assumption.
      rewrite Hmem. simpl.
      now destruct (Z.gtb_spec (_last_tstep self + 1) m); [|lia].
Qed.
End FieldFacts.

(** ** The code on sample inputs *)

Section FieldSamples.
Import OneSpaceField.

Lemma five_rows_wf : np.wf five_rows.
Proof. unfold np.wf. simpl. repeat constructor. Qed.

Lemma two_by_two_wf : np.wf two_by_two.
Proof. unfold np.wf. simpl. repeat constructor. Qed.

(** C1 fails as stated: built from five rows with [memory = 3], the
    object is past the bound (current time step 4) and stores five
    rows, before and after a further [update], not [memory + 1 = 4]. *)
Lemma storage_extent_oversized_seed :
  exists self,
    __init__ (Array2D five_rows) (Fin 3) = inr self /\
    current_time_step self > 3 /\
    time_steps self <> 3 + 1 /\
    update self [5] = (fst (update self [5]), None) /\
    time_steps (fst (update self [5])) <> 3 + 1.
Proof. eexists. split; [reflexivity|]. vm_compute. repeat split; discriminate. Qed.

(** C3 on an initial array with more than [memory + 1] rows: the row
    stored for time 4 is [[4]], and [get_val_time 4], like [get_last],
    returns the row of time 3. *)
Theorem round_trip_oversized_seed :
  exists self,
    __init__ (Array2D five_rows) (Fin 3) = inr self /\
    current_time_step self = 4 /\
    np.rows (val self) !! 4%nat = Some [4] /\
    get_val_time self 4 = inr [3] /\
    get_last self = inr [3].
Proof. eexists. split; [reflexivity|]. now vm_compute. Qed.

(** C6 fails as stated: an array whose only row has length zero is
    accepted. *)
Lemma construct_zero_length_row :
  In [] (np.rows one_empty_row) /\
  __init__ (Array2D one_empty_row) (Fin 3) =
    inr {| _last_tstep := 0; val := one_empty_row; memory := Fin 3 |}.
Proof. split; [now left|reflexivity]. Qed.


Lemma young_field_reachable : reachable young_field.
Proof. apply (reach_init two_by_two (Fin 3)); [exact two_by_two_wf|reflexivity]. Qed.

Lemma old_field_reachable : reachable old_field.
Proof. apply updates_reachable, young_field_reachable. Qed.

Lemma update_not_atomic_on_failure_witness :
  length [7] <> np.ncols (val young_field) /\
  exists self',
    update young_field [7] = (self', Some (ValueError DimensionMismatch)) /\
    val self' = val young_field /\
    time_steps self' = time_steps young_field /\
    current_time_step self' = current_time_step young_field + 1.
Proof.
  assert (length [7] <> np.ncols (val young_field)) as H by (simpl; lia).
  split; [exact H|]. exact (update_not_atomic_on_failure young_field [7] H).
Defined.

Lemma current_time_arithmetic_witness :
  exists self0 self,
    __init__ (Array2D two_by_two) (Fin 3) = inr self0 /\
    current_time_step self0 = Z.of_nat (length (np.rows two_by_two)) - 1 /\
    updates self0 [[4; 5]; [6; 7]] = (self, None) /\
    current_time_step self =
      Z.of_nat (length (np.rows two_by_two)) - 1
      + Z.of_nat (length [[4; 5]; [6; 7]]) /\
    forall newval,
      current_time_step (fst (update self newval)) = current_time_step self + 1.
Proof.
  apply (current_time_arithmetic two_by_two 3 [[4; 5]; [6; 7]]).
  - exact two_by_two_wf.
  - discriminate.
  - lia.
  - repeat constructor.
Defined.

Lemma storage_extent_witness :
  exists self0 self,
    __init__ (Array2D two_by_two) (Fin 3) = inr self0 /\
    updates self0 [[4; 5]; [6; 7]; [8; 9]] = (self, None) /\
    (current_time_step self <= 3 ->
       np.rows (val self) = np.rows two_by_two ++ [[4; 5]; [6; 7]; [8; 9]] /\
       time_steps self =
         Z.of_nat (length (np.rows two_by_two))
         + Z.of_nat (length [[4; 5]; [6; 7]; [8; 9]])) /\
    (current_time_step self > 3 ->
       time_steps self = Z.max (Z.of_nat (length (np.rows two_by_two))) (3 + 1) /\
       forall newval, length newval = np.ncols two_by_two ->
         exists self',
           update self newval = (self', None) /\
           np.rows (val self') = tail (np.rows (val self)) ++ [newval] /\
           time_steps self' = time_steps self).
Proof.
  apply (storage_extent two_by_two 3 [[4; 5]; [6; 7]; [8; 9]]).
  - exact two_by_two_wf.
  - discriminate.
  - lia.
  - repeat constructor.
Defined.

Lemma retention_boundary_witness :
  memory old_field = Fin 3 /\ current_time_step old_field > 3 /\
  (exists row, np.rows (val old_field) !! 0%nat = Some row /\
     get_val_time old_field (current_time_step old_field - 3) = inr row) /\
  get_val_time old_field (current_time_step old_field - 3 - 1) =
    inl (ValueError (MemoryRestriction (current_time_step old_field - 3 - 1))) /\
  (forall t, 0 <= t -> t - current_time_step old_field + 3 < 0 ->
     get_val_time old_field t = inl (ValueError (MemoryRestriction t))).
Proof.
  assert (memory old_field = Fin 3) as Hmem by reflexivity.
  assert (current_time_step old_field > 3) as Hcur by reflexivity.
  split; [exact Hmem|]. split; [exact Hcur|].
  exact (retention_boundary old_field 3 old_field_reachable Hmem Hcur).
Defined.

End FieldSamples.

(** ** Facts about [Simulation.run] *)

Section DriverFacts.
Context {A Particles Positions Img : Type}.
Context (advance : OneSpaceField.t A -> Particles -> exn + (list A * Particles)).
Context (list_pos : Particles -> Z -> Positions).
Context (str_field : list A -> string) (str_pos : Positions -> string).
Context (idtxtfield idtxtparts : string).
Context (Image_new : Img) (instant_img : Img -> list A -> Positions -> Z -> Img).
Import Simulation.

Local Abbreviation world := (@Simulation.world A Particles Img).
Local Abbreviation M := (@Simulation.M A Particles Img).
Local Abbreviation s_update := (@Simulation.s_update A Particles Img advance).
Local Abbreviation step :=
  (Simulation.step advance list_pos str_field str_pos instant_img).
Local Abbreviation run :=
  (Simulation.run advance list_pos str_field str_pos idtxtfield idtxtparts
                  Image_new instant_img).
Local Abbreviation updated := (Simulation.updated advance).
Local Abbreviation PhyString_update := (Simulation.PhyString_update advance).

(** *** What every part of [run] leaves untouched *)

Lemma preserves_ret {X : Type} (P : world -> Prop) (x : X) :
  preserves P (mret x : M X).
Proof. intros w Hw. exact Hw. Qed.

Lemma preserves_bind {X Y : Type} (P : world -> Prop) (c : M X) (k : X -> M Y) :
  preserves P c -> (forall x, preserves P (k x)) -> preserves P (c ≫= k).
Proof.
  intros Hc Hk w Hw. specialize (Hc w Hw).
  unfold mbind, M_bind. destruct (c w) as [w' [e|x]]; simpl in *.
  - exact Hc.
  - now apply Hk.
Qed.

(** A computation that brings [P] about, followed by one that keeps it. *)
Lemma establishes_bind {X Y : Type} (P : world -> Prop) (c : M X)
    (k : X -> M Y) (w : world) :
  (forall w', P (fst (c w'))) -> (forall x, preserves P (k x)) ->
  P (fst ((c ≫= k) w)).
Proof.
  intros Hc Hk. specialize (Hc w).
  unfold mbind, M_bind. destruct (c w) as [w' [e|x]]; simpl in *.
  - exact Hc.
  - now apply Hk.
Qed.

Lemma preserves_when (P : world -> Prop) (b : bool) (c : M unit) :
  preserves P c -> preserves P (when b c).
Proof. destruct b; [easy|]. intros _. apply preserves_ret. Qed.

Lemma preserves_for_each {X : Type} (P : world -> Prop) (l : list X)
    (body : X -> M unit) :
  (forall x, preserves P (body x)) -> preserves P (for_each l body).
Proof.
  intros Hbody. induction l as [|x rest IH]; simpl.
  - apply preserves_ret.
  - apply preserves_bind; [apply Hbody|]. intros _. exact IH.
Qed.

Lemma preserves_get (P : world -> Prop) : preserves P (get : M world).
Proof. intros w Hw. exact Hw. Qed.

Lemma preserves_raise {X : Type} (P : world -> Prop) (e : exn) :
  preserves P (raise e : M X).
Proof. intros w Hw. exact Hw. Qed.

Lemma preserves_modify (P : world -> Prop) (g : world -> world) :
  (forall w, P w -> P (g w)) -> preserves P (modify g).
Proof. intros Hg w Hw. now apply Hg. Qed.

Lemma files_open_print (p : printed) : preserves files_open (print p : M unit).
Proof. apply preserves_modify. intros w (cf & cp & Hf & Hp). now exists cf, cp. Qed.

Lemma files_open_print_if_log (p : Simulation.t -> printed) :
  preserves files_open (print_if_log p : M unit).
Proof.
  apply preserves_bind; [apply preserves_get|]. intros w.
  apply preserves_when, files_open_print.
Qed.

Lemma files_open_ff_write (text : string) :
  preserves files_open (ff_write text : M unit).
Proof.
  intros w (cf & cp & Hf & Hp).
  unfold ff_write, mbind, M_bind, get. simpl. rewrite Hf. simpl.
  now exists (cf ++ [text]), cp.
Qed.

Lemma files_open_pf_write (text : string) :
  preserves files_open (pf_write text : M unit).
Proof.
  intros w (cf & cp & Hf & Hp).
  unfold pf_write, mbind, M_bind, get. simpl. rewrite Hp. simpl.
  now exists cf, (cp ++ [text]).
Qed.

Lemma files_open_s_update (t : Z) : preserves files_open (s_update t).
Proof.
  intros w (cf & cp & Hf & Hp). unfold Simulation.s_update.
  destruct (PhyString_update (s (self w))) as [s' [e|]]; now exists cf, cp.
Qed.

Lemma files_open_create_anim : preserves files_open (create_anim : M unit).
Proof.
  apply preserves_bind; [apply preserves_get|]. intros w.
  destruct (list_img w); [apply preserves_raise|].
  apply preserves_modify. intros w' (cf & cp & Hf & Hp). now exists cf, cp.
Qed.

Lemma files_open_step (anim file : bool) (tmpl : Img) (t : Z) :
  preserves files_open (step anim file tmpl t).
Proof.
  unfold Simulation.step.
  apply preserves_bind; [apply preserves_when, files_open_s_update|]. intros _.
  apply preserves_bind; [now intros w Hw|]. intros f.
  apply preserves_bind; [now intros w Hw|]. intros pp.
  apply preserves_bind.
  { apply preserves_when, preserves_modify.
    intros w (cf & cp & Hf & Hp). now exists cf, cp. }
  intros _. apply preserves_bind; [|intros _; apply files_open_print_if_log].
  apply preserves_when, preserves_bind; [apply files_open_ff_write|].
  intros _. apply files_open_pf_write.
Qed.

(** C9 on the code: [run] with file output opens both files and never
    closes them.  Whatever the collaborators do, and whether [run]
    returns or raises, both file objects are still open afterwards. *)
Theorem run_leaves_files_open (anim : bool) (w : world) :
  exists cf cp,
    ff (fst (run anim true w)) = Some {| content := cf; closed := false |} /\
    pf (fst (run anim true w)) = Some {| content := cp; closed := false |}.
Proof.
  change (files_open (fst (run anim true w))).
  unfold Simulation.run.
  unfold mbind at 1, M_bind at 1.
  assert (exists w1, print_if_log (fun _ => Banner) w = (w1, inr tt)) as [w1 ->].
  { unfold print_if_log, mbind, M_bind, get, when. simpl.
    destruct (log (self w)); eexists; reflexivity. }
  apply (establishes_bind files_open).
  - intros w2. now eexists _, _.
  - intros _.
    apply preserves_bind.
    { apply preserves_modify. intros w' (cf & cp & Hf & Hp). now exists cf, cp. }
    intros _. apply preserves_bind; [apply preserves_get|]. intros w'.
    apply preserves_bind; [apply preserves_for_each, files_open_step|].
    intros _. apply preserves_bind.
    + apply preserves_when, preserves_bind;
        [apply files_open_print_if_log|intros _; apply files_open_create_anim].
    + intros _. apply preserves_when, files_open_print_if_log.
Qed.

(** *** Lines of text *)

Lemma count_char_remove (c : ascii) (text : string) :
  count_char c (remove_char c text) = 0%nat.
Proof.
  induction text as [|d rest IH]; [reflexivity|]. simpl.
  destruct (Ascii.eqb d c) eqn:Hd; [exact IH|]. simpl. now rewrite Hd.
Qed.

Lemma count_char_append (c : ascii) (s1 s2 : string) :
  count_char c (s1 +:+ s2) = (count_char c s1 + count_char c s2)%nat.
Proof.
  induction s1 as [|d rest IH]; [reflexivity|]. simpl.
  destruct (Ascii.eqb d c); simpl; now rewrite IH.
Qed.

(** A data line holds one line break, the one that ends it. *)
Lemma data_line_one_newline (text : string) :
  count_char "010"%char (list2str text +:+ newline) = 1%nat.
Proof.
  rewrite count_char_append. unfold list2str.
  now rewrite count_char_remove.
Qed.

(** *** The loop, turn by turn *)

(** One turn of the loop in which no collaborator raises. *)
Lemma step_eval (anim file : bool) (tmpl : Img) (t : Z) (w : world)
    (s' : PhyString) (row : list A) (cf cp : list string) :
  (if t >? 1 then PhyString_update (s (self w)) = (s', None)
   else s' = s (self w)) ->
  OneSpaceField.get_val_time (field s') t = inr row ->
  (file = true ->
     ff w = Some {| content := cf; closed := false |} /\
     pf w = Some {| content := cp; closed := false |}) ->
  step anim file tmpl t w =
    ({| self := {| log := log (self w); time_steps := time_steps (self w);
                   s := s' |};
        ff := if file
              then Some {| content := cf ++ [list2str (str_field row) +:+ newline];
                           closed := false |}
              else ff w;
        pf := if file
              then Some {| content :=
                             cp ++ [list2str (str_pos (list_pos (particles s') t))
                                    +:+ newline];
                           closed := false |}
              else pf w;
        list_img := if anim
                    then list_img w
                         ++ [instant_img tmpl row (list_pos (particles s') t) t]
                    else list_img w;
        saved := saved w;
        stdout := if log (self w)
                  then stdout w ++ [Progress t (time_steps (self w))]
                  else stdout w;
        update_calls := if t >? 1 then update_calls w ++ [t]
                        else update_calls w |}, inr tt).
Proof.
  intros Hupd Hget Hfiles.
  destruct w as [[lg n s0] f1 f2 imgs sv out calls]. simpl in *.
  unfold Simulation.step, mbind, M_bind, when, mret, M_ret,
    Simulation.s_update, field_get_val_time, particles_list_pos.
  cbv beta iota zeta delta [self s log time_steps ff pf list_img saved stdout
                            update_calls get modify print_if_log print
                            list_img_append ff_write pf_write set_ff set_pf
                            raise mbind M_bind when mret M_ret write
                            content closed].
  destruct (t >? 1).
  - rewrite Hupd. cbv beta iota. rewrite Hget.
    destruct file.
    + destruct (Hfiles eq_refl) as [-> ->].
      destruct anim, lg; reflexivity.
    + destruct anim, lg; reflexivity.
  - subst s'. rewrite Hget.
    destruct file.
    + destruct (Hfiles eq_refl) as [-> ->].
      destruct anim, lg; reflexivity.
    + destruct anim, lg; reflexivity.
Qed.

Lemma filter_after_seed (N : Z) :
  filter (fun t => 1 < t) (seqZ 0 N) = seqZ 2 (N - 2).
Proof.
  assert (forall k t0, 2 <= t0 ->
            filter (fun t => 1 < t) (seqZ t0 (Z.of_nat k)) = seqZ t0 (Z.of_nat k))
    as Hall.
  { induction k as [|k IH]; intros t0 Ht0; [reflexivity|].
    rewrite seqZ_cons by lia. rewrite filter_cons_True by lia.
    replace (Z.pred (Z.of_nat (S k))) with (Z.of_nat k) by lia.
    now rewrite IH by lia. }
  destruct (Z.le_gt_cases N 0); [now rewrite !seqZ_nil by lia|].
  destruct (Z.eq_dec N 1) as [->|]; [reflexivity|].
  replace N with (2 + (N - 2)) at 1 by lia.
  rewrite seqZ_app by lia. rewrite filter_app. simpl.
  replace (N - 2) with (Z.of_nat (Z.to_nat (N - 2))) by lia.
  now apply Hall.
Qed.

(** *** A run seeded with two rows whose engine never fails *)

Section SeededRun.
Context (a : np.ndarray A) (mem : bound).
Context (f0 : OneSpaceField.t A) (p0 : Particles).
Hypothesis seed_wf : np.wf a.
Hypothesis seed_rows : length (np.rows a) = 2%nat.
Hypothesis seed_init : OneSpaceField.__init__ (Array2D a) mem = inr f0.
Hypothesis engine_total : forall f p,
  np.wf (OneSpaceField.val f) ->
  exists row p', advance f p = inr (row, p') /\
                 length row = np.ncols (OneSpaceField.val f).

Local Abbreviation s0 := {| field := f0; particles := p0 |}.
Local Abbreviation field_line := (Simulation.field_line advance str_field s0).
Local Abbreviation particles_line :=
  (Simulation.particles_line advance list_pos str_pos s0).

Lemma PhyString_update_ok (st : PhyString) hist :
  OneSpaceField.tracks hist (field st) ->
  np.wf (OneSpaceField.val (field st)) ->
  exists row,
    PhyString_update st = (fst (PhyString_update st), None) /\
    OneSpaceField.tracks (hist ++ [row]) (field (fst (PhyString_update st))) /\
    np.wf (OneSpaceField.val (field (fst (PhyString_update st)))) /\
    OneSpaceField._last_tstep (field (fst (PhyString_update st))) =
      OneSpaceField._last_tstep (field st) + 1.
Proof.
  intros Htr Hwf.
  destruct (engine_total (field st) (particles st) Hwf) as (row & p' & Hadv & Hlen).
  exists row. unfold Simulation.PhyString_update. rewrite Hadv.
  pose proof (tracks_update hist (field st) row Htr Hlen) as Htr'.
  pose proof (update_wf (field st) row Hwf) as Hwf'.
  pose proof (update_current_time (field st) row) as Hcur.
  rewrite update_ok in * by exact Hlen. simpl in *.
  split; [reflexivity|]. split; [exact Htr'|]. split; [exact Hwf'|].
  reflexivity.
Qed.

Lemma updated_inv (k : nat) :
  exists hist,
    OneSpaceField.tracks hist (field (updated k s0)) /\
    np.wf (OneSpaceField.val (field (updated k s0))) /\
    OneSpaceField._last_tstep (field (updated k s0)) = 1 + Z.of_nat k /\
    PhyString_update (updated k s0) = (updated (S k) s0, None).
Proof.
  induction k as [|k (hist & Htr & Hwf & Hlast & Hupd)].
  - destruct (init_inv _ _ _ seed_init) as (a' & [= <-] & Hne & Hmem & Hf0).
    assert (OneSpaceField.tracks (np.rows a) f0) as Htr.
    { rewrite Hf0. apply tracks_init; try assumption.
      intros m ->. simpl in Hmem. lia. }
    assert (np.wf (OneSpaceField.val f0)) as Hwf by now rewrite Hf0.
    exists (np.rows a). split; [exact Htr|]. split; [exact Hwf|].
    split; [rewrite Hf0; simpl; lia|].
    now destruct (PhyString_update_ok s0 _ Htr Hwf) as (row & Hok & _).
  - destruct (PhyString_update_ok _ _ Htr Hwf) as (row & _ & Htr' & Hwf' & Hlast').
    change (fst (PhyString_update (updated k s0))) with (updated (S k) s0) in *.
    destruct (PhyString_update_ok _ _ Htr' Hwf') as (row' & Hok' & _).
    exists (hist ++ [row]). split; [exact Htr'|]. split; [exact Hwf'|].
    split; [lia|]. exact Hok'.
Qed.

(** The row for time [t] can be read once the turns up to [t] have run. *)
Lemma read_at (t : Z) :
  0 <= t ->
  exists row,
    OneSpaceField.get_val_time (field (updated (Z.to_nat (t - 1)) s0)) t = inr row.
Proof.
  intros Ht.
  destruct (updated_inv (Z.to_nat (t - 1))) as (hist & Htr & _ & Hlast & _).
  destruct (tracks_get_val_time hist _ t Htr) as (row & _ & Hget).
  - destruct Htr as (Hpos & _ & Hmem & _).
    pose proof (oldest_retained_time_range _ Hmem Hpos) as Hrange.
    unfold OneSpaceField.current_time_step.
    destruct (Z.eq_dec t 0) as [->|]; [|lia].
    unfold OneSpaceField.oldest_retained_time in *.
    destruct (OneSpaceField.memory _) as [m|]; simpl in *; [|lia].
    apply Z.ltb_ge in Hmem.
    destruct (Z.leb_spec (OneSpaceField._last_tstep f0) m); lia.
  - now exists row.
Qed.

(** The turns from [t0] on, [k] of them. *)
Lemma loop_eval (anim file : bool) (tmpl : Img) (k : nat) :
  forall (t0 : Z) (w : world) (cf cp : list string),
  0 <= t0 ->
  s (self w) = updated (Z.to_nat (t0 - 2)) s0 ->
  (file = true ->
     ff w = Some {| content := cf; closed := false |} /\
     pf w = Some {| content := cp; closed := false |}) ->
  exists w' fl pl,
    for_each (seqZ t0 (Z.of_nat k)) (step anim file tmpl) w = (w', inr tt) /\
    log (self w') = log (self w) /\
    time_steps (self w') = time_steps (self w) /\
    s (self w') = updated (Z.to_nat (t0 + Z.of_nat k - 2)) s0 /\
    update_calls w' =
      update_calls w ++ filter (fun t => 1 < t) (seqZ t0 (Z.of_nat k)) /\
    length (list_img w') = (length (list_img w) + (if anim then k else 0))%nat /\
    (file = true ->
       ff w' = Some {| content := cf ++ fl; closed := false |} /\
       pf w' = Some {| content := cp ++ pl; closed := false |}) /\
    (file = false -> ff w' = ff w /\ pf w' = pf w) /\
    Forall2 field_line (seqZ t0 (Z.of_nat k)) fl /\
    Forall2 particles_line (seqZ t0 (Z.of_nat k)) pl.
Proof.
  induction k as [|k IH]; intros t0 w cf cp Ht0 Hs Hfiles.
  - exists w, [], []. rewrite seqZ_nil by lia. simpl.
    rewrite !app_nil_r, Z.add_0_r.
    repeat split; try easy; try constructor; try (now apply Hfiles).
    destruct anim; lia.
  - rewrite seqZ_cons by lia.
    replace (Z.pred (Z.of_nat (S k))) with (Z.of_nat k) by lia.
    replace (Z.succ t0) with (t0 + 1) by lia.
    destruct (read_at t0 Ht0) as [row Hrow].
    set (s' := updated (Z.to_nat (t0 - 1)) s0) in *.
    assert (if t0 >? 1 then PhyString_update (s (self w)) = (s', None)
            else s' = s (self w)) as Hupd.
    { rewrite Hs. unfold s'. destruct (Z.gtb_spec t0 1).
      - destruct (updated_inv (Z.to_nat (t0 - 2))) as (_ & _ & _ & _ & Hok).
        rewrite Hok. now replace (S (Z.to_nat (t0 - 2))) with (Z.to_nat (t0 - 1)) by lia.
      - now replace (Z.to_nat (t0 - 1)) with (Z.to_nat (t0 - 2)) by lia. }
    pose proof (step_eval anim file tmpl t0 w s' row cf cp Hupd Hrow Hfiles) as Hstep.
    set (line := list2str (str_field row) +:+ newline) in *.
    set (pline := list2str (str_pos (list_pos (particles s') t0)) +:+ newline) in *.
    match type of Hstep with _ = (?x, _) => set (w1 := x) in * end.
    destruct (IH (t0 + 1) w1 (cf ++ [line]) (cp ++ [pline]))
      as (w' & fl & pl & Hrun & Hlog & Hn & Hs' & Hcalls & Himg & Hf & Hnf & Hfl & Hpl).
    { lia. }
    { unfold w1. simpl. unfold s'. f_equal. f_equal. lia. }
    { intros ->. unfold w1. simpl. now split. }
    exists w', (line :: fl), (pline :: pl).
    split.
    { simpl. unfold mbind, M_bind. now rewrite Hstep. }
    split; [exact Hlog|]. split; [exact Hn|].
    split. { rewrite Hs'. f_equal. f_equal. lia. }
    split.
    { rewrite Hcalls. unfold w1. simpl. rewrite filter_cons.
      destruct (Z.gtb_spec t0 1); destruct (decide (1 < t0)); try lia.
      - now rewrite <- app_assoc.
      - reflexivity. }
    split. { rewrite Himg. unfold w1. simpl. destruct anim; [|lia].
             rewrite length_app. simpl. lia. }
    split. { intros Hfile. destruct (Hf Hfile) as [-> ->].
             now rewrite <- !app_assoc. }
    split. { intros Hfile. destruct (Hnf Hfile) as [-> ->]. unfold w1. simpl.
             now rewrite Hfile. }
    split.
    + constructor; [|exact Hfl]. now exists row.
    + constructor; [|exact Hpl]. reflexivity.
Qed.

(** What follows the loop: the animation is saved if there is a frame,
    and nothing else changes but the console. *)
Lemma finalise_eval (anim file : bool) (w : world) :
  exists w',
    (when anim (print_if_log (fun _ => AnimFinalisation);; create_anim);;
     when file (print_if_log (fun _ => FileFinalisation))) w =
      (w', if anim && (length (list_img w) =? 0)%nat
           then inl IndexError else inr tt) /\
    self w' = self w /\ ff w' = ff w /\ pf w' = pf w /\
    update_calls w' = update_calls w.
Proof.
  destruct w as [[lg n st] f1 f2 imgs sv out calls].
  destruct anim, file, lg, imgs; eexists; (split; [reflexivity|]); now repeat split.
Qed.

Lemma seqZ_to_nat (m n : Z) : seqZ m n = seqZ m (Z.of_nat (Z.to_nat n)).
Proof.
  destruct (Z.le_gt_cases n 0).
  - now rewrite !seqZ_nil by lia.
  - now replace (Z.of_nat (Z.to_nat n)) with n by lia.
Qed.

End SeededRun.
End DriverFacts.

(** ** The driver on the five-step scenario *)

Section DriverSamples.
Import Simulation.

Lemma sample_engine_total (f : OneSpaceField.t Z) (p : unit) :
  np.wf (OneSpaceField.val f) ->
  exists row p', sample_advance f p = inr (row, p') /\
                 length row = np.ncols (OneSpaceField.val f).
Proof.
  intros _. eexists _, _. split; [reflexivity|]. apply length_replicate.
Qed.

(** Five steps, no animation, file output: three updates, at the loop
    indices 2, 3 and 4, and a header and five lines in each file,
    which are left open. *)
Example sample_run_five_steps :
  sample_run false true 5 =
    ({| self := {| log := false; time_steps := 5;
                   s := {| field :=
                             {| OneSpaceField._last_tstep := 4;
                                OneSpaceField.val :=
                                  {| np.ncols := 2;
                                     np.rows := [[2; 3]; [2; 2]; [3; 3]; [4; 4]] |};
                                OneSpaceField.memory := Fin 3 |};
                           particles := tt |} |};
        ff := Some {| content :=
                        ["field header"; "0 1" +:+ newline; "n n" +:+ newline;
                         "n n" +:+ newline; "n n" +:+ newline; "n n" +:+ newline];
                      closed := false |};
        pf := Some {| content :=
                        ["particles header"; newline; newline; newline;
                         newline; newline];
                      closed := false |};
        list_img := []; saved := []; stdout := [];
        update_calls := [2; 3; 4] |}, inr tt).
Proof. reflexivity. Qed.

End DriverSamples.

(** ** More about [OneSpaceField]: ordinary buffers *)

(** An ordinary buffer is built from an array that the constructor
    accepts and that is not yet past [memory] (the test of [update],
    taken at the time step of the last initial row), and then fed rows
    of the array's width. *)

Section OrdinaryBuffers.
Context {A : Type}.
Import OneSpaceField.
Implicit Types (self : OneSpaceField.t A) (a : np.ndarray A).
Implicit Types (newval row : list A) (news hist : list (list A)).

Lemma updates_tracks news : forall hist self,
  tracks hist self ->
  Forall (fun r => length r = np.ncols (val self)) news ->
  tracks (hist ++ news) (fst (updates self news)).
Proof.
  induction news as [|newval rest IH]; intros hist self Htr Hall.
  - simpl. now rewrite app_nil_r.
  - inversion Hall as [|? ? Hlen Hrest]; subst.
    rewrite updates_cons_ok by exact Hlen.
    replace (hist ++ newval :: rest) with ((hist ++ [newval]) ++ rest)
      by now rewrite <- app_assoc.
    apply IH; [now apply tracks_update|now rewrite update_ncols].
Qed.

Lemma ordinary_build a (mem : bound) news :
  np.wf a -> np.rows a <> [] -> bound_lt mem 3 = false ->
  gt_bound (Z.of_nat (length (np.rows a)) - 1) mem = false ->
  Forall (fun r => length r = np.ncols a) news ->
  exists self0 self,
    __init__ (Array2D a) mem = inr self0 /\
    updates self0 news = (self, None) /\
    tracks (np.rows a ++ news) self /\
    reachable self /\
    np.ncols (val self) = np.ncols a /\
    memory self = mem /\
    current_time_step self =
      Z.of_nat (length (np.rows a)) - 1 + Z.of_nat (length news).
Proof.
  intros Hwf Hne Hmem Hwarm Hall.
  pose proof (init_ok a mem Hmem Hne) as Hinit.
  set (self0 := {| _last_tstep := Z.of_nat (length (np.rows a)) - 1;
                   val := a; memory := mem |}) in *.
  assert (tracks (np.rows a) self0) as Htr.
  { apply tracks_init; try assumption. intros m ->. simpl in Hwarm.
    destruct (Z.gtb_spec (Z.of_nat (length (np.rows a)) - 1) m);
      [discriminate|lia]. }
  assert (reachable self0) as Hreach by (eapply reach_init; eassumption).
  destruct (updates_ok news self0 Hall) as (self & Hrun & Hcur & Hm & Hcols).
  pose proof (updates_tracks news _ self0 Htr Hall) as Htr'.
  pose proof (updates_reachable news self0 Hreach) as Hreach'.
  rewrite Hrun in Htr', Hreach'. simpl in Htr', Hreach'.
  exists self0, self.
  split; [exact Hinit|]. split; [exact Hrun|]. split; [exact Htr'|].
  split; [exact Hreach'|]. split; [exact Hcols|]. split; [exact Hm|].
  exact Hcur.
Qed.

(** The storage index of [get_val_time] is the distance from the
    oldest retained time. *)
Lemma get_val_time_resolved self (t : Z) :
  get_val_time self t =
    if (t - oldest_retained_time self <? 0) && (0 <=? t)
    then inl (ValueError (MemoryRestriction t))
    else np.getitem (val self) (t - oldest_retained_time self).
Proof.
  unfold get_val_time, oldest_retained_time.
  destruct (memory self) as [m|].
  - destruct (_last_tstep self <=? m).
    + now rewrite Z.sub_0_r.
    + now replace (t - (_last_tstep self - m)) with (t - _last_tstep self + m)
        by lia.
  - now rewrite Z.sub_0_r.
Qed.

Lemma getitem_out_of_bounds a (i : Z) :
  ~ (- Z.of_nat (length (np.rows a)) <= i < Z.of_nat (length (np.rows a))) ->
  np.getitem a i = inl IndexError.
Proof.
  intros Hi. unfold np.getitem. apply axis_index_None in Hi. now rewrite Hi.
Qed.

Lemma oldest_zero_in_warm_up self :
  gt_bound (_last_tstep self) (memory self) = false ->
  oldest_retained_time self = 0.
Proof.
  unfold oldest_retained_time, gt_bound. destruct (memory self) as [m|]; [|easy].
  destruct (Z.gtb_spec (_last_tstep self) m); [discriminate|].
  intros _. now destruct (Z.leb_spec (_last_tstep self) m); [|lia].
Qed.

(** X1. On an ordinary buffer every time step from the oldest retained
    one to the current one gives back the very row that was stored for
    it: the initial row or the appended row of that time step. *)
Theorem round_trip_ordinary_seed a (mem : bound) news :
  np.wf a -> np.rows a <> [] -> bound_lt mem 3 = false ->
  gt_bound (Z.of_nat (length (np.rows a)) - 1) mem = false ->
  Forall (fun r => length r = np.ncols a) news ->
  exists self0 self,
    __init__ (Array2D a) mem = inr self0 /\
    updates self0 news = (self, None) /\
    forall t, oldest_retained_time self <= t <= current_time_step self ->
      exists row, (np.rows a ++ news) !! Z.to_nat t = Some row /\
                  get_val_time self t = inr row.
Proof.
  intros Hwf Hne Hmem Hwarm Hall.
  destruct (ordinary_build a mem news Hwf Hne Hmem Hwarm Hall)
    as (self0 & self & Hinit & Hrun & Htr & _).
  exists self0, self. split; [exact Hinit|]. split; [exact Hrun|].
  intros t Ht. now apply tracks_get_val_time.
Qed.

(** X2. On an ordinary buffer [get_last] returns the newest row: the
    last appended one, or the last initial row when nothing was
    appended. *)
Theorem get_last_is_newest a (mem : bound) news :
  np.wf a -> np.rows a <> [] -> bound_lt mem 3 = false ->
  gt_bound (Z.of_nat (length (np.rows a)) - 1) mem = false ->
  Forall (fun r => length r = np.ncols a) news ->
  exists self0 self row,
    __init__ (Array2D a) mem = inr self0 /\
    updates self0 news = (self, None) /\
    last (np.rows a ++ news) = Some row /\
    get_last self = inr row.
Proof.
  intros Hwf Hne Hmem Hwarm Hall.
  destruct (ordinary_build a mem news Hwf Hne Hmem Hwarm Hall)
    as (self0 & self & Hinit & Hrun & Htr & _).
  pose proof Htr as (Hpos & Hlen & Hm & _).
  pose proof (oldest_retained_time_range self Hm Hpos) as Hrange.
  destruct (tracks_get_val_time _ self (_last_tstep self) Htr) as (row & Hrow & Hget).
  { unfold current_time_step. lia. }
  exists self0, self, row. split; [exact Hinit|]. split; [exact Hrun|].
  split; [|exact Hget].
  rewrite last_lookup, <- Hrow. f_equal. lia.
Qed.

(** X3. On an ordinary buffer a time step after the current one raises
    [IndexError]. *)
Theorem future_time_raises_IndexError a (mem : bound) news :
  np.wf a -> np.rows a <> [] -> bound_lt mem 3 = false ->
  gt_bound (Z.of_nat (length (np.rows a)) - 1) mem = false ->
  Forall (fun r => length r = np.ncols a) news ->
  exists self0 self,
    __init__ (Array2D a) mem = inr self0 /\
    updates self0 news = (self, None) /\
    forall t, current_time_step self < t ->
      get_val_time self t = inl IndexError.
Proof.
  intros Hwf Hne Hmem Hwarm Hall.
  destruct (ordinary_build a mem news Hwf Hne Hmem Hwarm Hall)
    as (self0 & self & Hinit & Hrun & Htr & _).
  exists self0, self. split; [exact Hinit|]. split; [exact Hrun|].
  intros t Ht. pose proof (tracks_time_steps _ self Htr) as Hext.
  destruct Htr as (Hpos & _ & Hm & _).
  pose proof (oldest_retained_time_range self Hm Hpos) as Hrange.
  unfold current_time_step, time_steps, np.shape in *. simpl in Hext.
  rewrite get_val_time_resolved.
  destruct (Z.ltb_spec (t - oldest_retained_time self) 0); [lia|]. simpl.
  apply getitem_out_of_bounds. lia.
Qed.

(** X4. While an ordinary buffer is not past [memory], a negative time
    step counts from the newest row, as Python indices do: [-1] is the
    current time step, and anything below minus the number of stored
    rows raises [IndexError]. *)
Theorem negative_time_in_warm_up a (mem : bound) news :
  np.wf a -> np.rows a <> [] -> bound_lt mem 3 = false ->
  gt_bound (Z.of_nat (length (np.rows a)) - 1) mem = false ->
  Forall (fun r => length r = np.ncols a) news ->
  exists self0 self,
    __init__ (Array2D a) mem = inr self0 /\
    updates self0 news = (self, None) /\
    (gt_bound (current_time_step self) mem = false ->
       (forall t, - time_steps self <= t < 0 ->
          exists row,
            (np.rows a ++ news) !! Z.to_nat (current_time_step self + 1 + t)
              = Some row /\
            get_val_time self t = inr row) /\
       (forall t, t < - time_steps self ->
          get_val_time self t = inl IndexError)).
Proof.
  intros Hwf Hne Hmem Hwarm Hall.
  destruct (ordinary_build a mem news Hwf Hne Hmem Hwarm Hall)
    as (self0 & self & Hinit & Hrun & Htr & _ & _ & Hm & _).
  exists self0, self. split; [exact Hinit|]. split; [exact Hrun|].
  intros Hnow. rewrite <- Hm in Hnow. unfold current_time_step in *.
  pose proof (oldest_zero_in_warm_up self Hnow) as Hold.
  pose proof (tracks_time_steps _ self Htr) as Hext.
  destruct Htr as (Hpos & Hlen & _ & Hrows).
  rewrite Hold in Hext, Hrows. simpl in Hrows. rewrite drop_0 in Hrows.
  unfold current_time_step, time_steps, np.shape in *. simpl in Hext. simpl.
  split.
  - intros t Ht.
    destruct (lookup_lt_is_Some_2 (np.rows a ++ news)
                (Z.to_nat (_last_tstep self + 1 + t))) as [row Hrow]; [lia|].
    exists row. split; [exact Hrow|].
    rewrite get_val_time_resolved, Hold, Z.sub_0_r.
    destruct (Z.leb_spec 0 t); [lia|]. rewrite andb_false_r.
    unfold np.getitem. rewrite axis_index_back by lia.
    rewrite Hrows.
    replace (Z.to_nat (Z.of_nat (length (np.rows a ++ news)) + t))
      with (Z.to_nat (_last_tstep self + 1 + t)) by lia.
    now rewrite Hrow.
  - intros t Ht. rewrite get_val_time_resolved, Hold, Z.sub_0_r.
    destruct (Z.leb_spec 0 t); [lia|]. rewrite andb_false_r.
    apply getitem_out_of_bounds. lia.
Qed.

(** X5. With the default [memory] ([np.inf]) nothing is ever dropped:
    the buffer stores the initial rows followed by all appended rows,
    and every time step from 0 to the current one gives back its row. *)
Theorem unbounded_memory_keeps_everything a news :
  np.wf a -> np.rows a <> [] ->
  Forall (fun r => length r = np.ncols a) news ->
  exists self0 self,
    __init__ (Array2D a) Inf = inr self0 /\
    updates self0 news = (self, None) /\
    np.rows (val self) = np.rows a ++ news /\
    time_steps self =
      Z.of_nat (length (np.rows a)) + Z.of_nat (length news) /\
    forall t, 0 <= t <= current_time_step self ->
      exists row, (np.rows a ++ news) !! Z.to_nat t = Some row /\
                  get_val_time self t = inr row.
Proof.
  intros Hwf Hne Hall.
  destruct (ordinary_build a Inf news Hwf Hne eq_refl eq_refl Hall)
    as (self0 & self & Hinit & Hrun & Htr & _ & _ & Hm & _).
  exists self0, self. split; [exact Hinit|]. split; [exact Hrun|].
  assert (oldest_retained_time self = 0) as Hold
    by (unfold oldest_retained_time; now rewrite Hm).
  pose proof Htr as (_ & _ & _ & Hrows).
  rewrite Hold in Hrows. simpl in Hrows. rewrite drop_0 in Hrows.
  split; [exact Hrows|]. split.
  - unfold time_steps, np.shape. simpl. rewrite Hrows, length_app. lia.
  - intros t Ht. apply tracks_get_val_time; [exact Htr|]. now rewrite Hold.
Qed.

(** X6. The width is fixed for life: in every buffer all stored rows
    have the length [pos_steps] reports, and a call of [update],
    whether it returns or raises, leaves that length as it is. *)
Theorem width_is_invariant self (w : Z) :
  reachable self -> pos_steps self = inr w ->
  Forall (fun r => Z.of_nat (length r) = w) (np.rows (val self)) /\
  forall newval, pos_steps (fst (update self newval)) = inr w.
Proof.
  intros Hreach Hw.
  rewrite (pos_steps_reachable _ Hreach) in Hw. injection Hw as <-.
  split.
  - apply reachable_inv in Hreach as [Hwf _].
    eapply Forall_impl; [exact Hwf|]. intros r Hr. simpl in Hr. now rewrite Hr.
  - intros newval.
    rewrite (pos_steps_reachable _ (reach_update self newval Hreach)).
    now rewrite update_ncols.
Qed.

(** X7. A failed [update] leaves an ordinary buffer out of step: when
    a row of another width is refused while the buffer is not past
    [memory], the current time step has no row, and [get_last] raises
    [IndexError] from then on until a row is appended. *)
Theorem failed_update_breaks_get_last a (mem : bound) news (bad : list A) :
  np.wf a -> np.rows a <> [] -> bound_lt mem 3 = false ->
  Forall (fun r => length r = np.ncols a) news ->
  length bad <> np.ncols a ->
  gt_bound (Z.of_nat (length (np.rows a)) + Z.of_nat (length news)) mem = false ->
  exists self0 self self',
    __init__ (Array2D a) mem = inr self0 /\
    updates self0 news = (self, None) /\
    update self bad = (self', Some (ValueError DimensionMismatch)) /\
    get_last self' = inl IndexError.
Proof.
  intros Hwf Hne Hmem Hall Hbad Hwarm.
  assert (gt_bound (Z.of_nat (length (np.rows a)) - 1) mem = false) as Hwarm0.
  { destruct mem as [m|]; [|reflexivity]. simpl in *.
    destruct (Z.gtb_spec (Z.of_nat (length (np.rows a))
                          + Z.of_nat (length news)) m); [discriminate|].
    destruct (Z.gtb_spec (Z.of_nat (length (np.rows a)) - 1) m); [lia|reflexivity]. }
  destruct (ordinary_build a mem news Hwf Hne Hmem Hwarm0 Hall)
    as (self0 & self & Hinit & Hrun & Htr & _ & Hcols & Hm & Hcur).
  rewrite <- Hcols in Hbad.
  exists self0, self, (fst (update self bad)).
  split; [exact Hinit|]. split; [exact Hrun|].
  rewrite update_mismatch by exact Hbad. split; [reflexivity|]. simpl.
  unfold current_time_step in Hcur.
  pose proof (tracks_time_steps _ self Htr) as Hext.
  assert (oldest_retained_time self = 0) as Hold.
  { apply oldest_zero_in_warm_up. rewrite Hm, Hcur.
    destruct mem as [m|]; [|reflexivity]. simpl in *.
    destruct (Z.gtb_spec (Z.of_nat (length (np.rows a))
                          + Z.of_nat (length news)) m); [discriminate|].
    destruct (Z.gtb_spec (Z.of_nat (length (np.rows a)) - 1
                          + Z.of_nat (length news)) m); [lia|reflexivity]. }
  unfold time_steps, current_time_step, np.shape in Hext. simpl in Hext.
  unfold get_last. rewrite get_val_time_resolved. simpl.
  assert (oldest_retained_time
            {| _last_tstep := _last_tstep self + 1; val := val self;
               memory := memory self |} = 0) as Hold'.
  { apply oldest_zero_in_warm_up. simpl. rewrite Hm, Hcur.
    now replace (Z.of_nat (length (np.rows a)) - 1
                 + Z.of_nat (length news) + 1)
      with (Z.of_nat (length (np.rows a)) + Z.of_nat (length news)) by lia. }
  rewrite Hold', Z.sub_0_r.
  destruct (Z.ltb_spec (_last_tstep self + 1) 0); [lia|]. simpl.
  apply getitem_out_of_bounds. lia.
Qed.

(** X8. How a column changes with an append: after [update] has
    accepted a row, the column at [n] is the old column, without its
    first value when the new time step exceeds [memory], followed by
    cell [n] of the new row. *)
Theorem column_after_update self (w n : Z) newval col :
  reachable self -> pos_steps self = inr w -> 0 <= n < w ->
  Z.of_nat (length newval) = w ->
  get_val_pos self n = inr col ->
  exists x,
    newval !! Z.to_nat n = Some x /\
    get_val_pos (fst (update self newval)) n =
      inr ((if gt_bound (current_time_step self + 1) (memory self)
            then tail col else col) ++ [x]).
Proof.
  intros Hreach Hw Hn Hlen Hcol.
  rewrite (pos_steps_reachable _ Hreach) in Hw. injection Hw as <-.
  apply reachable_inv in Hreach as [Hwf Hne].
  destruct (lookup_lt_is_Some_2 newval (Z.to_nat n)) as [x Hx]; [lia|].
  exists x. split; [exact Hx|].
  unfold get_val_pos, np.getcolumn in *.
  rewrite update_ncols, axis_index_front in * by lia.
  destruct (mapM _ (np.rows (val self))) as [col'|] eqn:Hmap; [|discriminate].
  injection Hcol as ->. apply mapM_Some in Hmap.
  rewrite update_rows by (assumption || lia).
  unfold current_time_step.
  match goal with |- context [mapM ?f ?l] =>
    assert (mapM f l = Some ((if gt_bound (_last_tstep self + 1) (memory self)
                              then tail col else col) ++ [x])) as -> end;
    [|reflexivity].
  apply mapM_Some.
  destruct (gt_bound _ _).
  - apply Forall2_app; [now apply Forall2_tail|]. now repeat constructor.
  - apply Forall2_app; [exact Hmap|]. now repeat constructor.
Qed.
End OrdinaryBuffers.

(** ** Ordinary buffers on sample inputs *)

Section OrdinarySamples.
Import OneSpaceField.

Lemma round_trip_ordinary_seed_witness :
  exists self0 self,
    __init__ (Array2D two_by_two) (Fin 3) = inr self0 /\
    updates self0 [[4; 5]; [6; 7]; [8; 9]] = (self, None) /\
    forall t, oldest_retained_time self <= t <= current_time_step self ->
      exists row,
        (np.rows two_by_two ++ [[4; 5]; [6; 7]; [8; 9]]) !! Z.to_nat t = Some row /\
        get_val_time self t = inr row.
Proof.
  apply (round_trip_ordinary_seed two_by_two (Fin 3) [[4; 5]; [6; 7]; [8; 9]]).
  - exact two_by_two_wf.
  - discriminate.
  - reflexivity.
  - reflexivity.
  - repeat constructor.
Defined.

Lemma get_last_is_newest_witness :
  exists self0 self row,
    __init__ (Array2D two_by_two) (Fin 3) = inr self0 /\
    updates self0 [[4; 5]; [6; 7]; [8; 9]] = (self, None) /\
    last (np.rows two_by_two ++ [[4; 5]; [6; 7]; [8; 9]]) = Some row /\
    get_last self = inr row.
Proof.
  apply (get_last_is_newest two_by_two (Fin 3) [[4; 5]; [6; 7]; [8; 9]]).
  - exact two_by_two_wf.
  - discriminate.
  - reflexivity.
  - reflexivity.
  - repeat constructor.
Defined.

Lemma future_time_raises_IndexError_witness :
  exists self0 self,
    __init__ (Array2D two_by_two) (Fin 3) = inr self0 /\
    updates self0 [[4; 5]; [6; 7]; [8; 9]] = (self, None) /\
    forall t, current_time_step self < t ->
      get_val_time self t = inl IndexError.
Proof.
  apply (future_time_raises_IndexError two_by_two (Fin 3)
           [[4; 5]; [6; 7]; [8; 9]]).
  - exact two_by_two_wf.
  - discriminate.
  - reflexivity.
  - reflexivity.
  - repeat constructor.
Defined.

Lemma negative_time_in_warm_up_witness :
  exists self0 self,
    __init__ (Array2D two_by_two) (Fin 3) = inr self0 /\
    updates self0 [[4; 5]] = (self, None) /\
    (gt_bound (current_time_step self) (Fin 3) = false ->
       (forall t, - time_steps self <= t < 0 ->
          exists row,
            (np.rows two_by_two ++ [[4; 5]])
              !! Z.to_nat (current_time_step self + 1 + t) = Some row /\
            get_val_time self t = inr row) /\
       (forall t, t < - time_steps self ->
          get_val_time self t = inl IndexError)).
Proof.
  apply (negative_time_in_warm_up two_by_two (Fin 3) [[4; 5]]).
  - exact two_by_two_wf.
  - discriminate.
  - reflexivity.
  - reflexivity.
  - repeat constructor.
Defined.

Lemma unbounded_memory_keeps_everything_witness :
  exists self0 self,
    __init__ (Array2D two_by_two) Inf = inr self0 /\
    updates self0 [[4; 5]; [6; 7]; [8; 9]] = (self, None) /\
    np.rows (val self) = np.rows two_by_two ++ [[4; 5]; [6; 7]; [8; 9]] /\
    time_steps self =
      Z.of_nat (length (np.rows two_by_two))
      + Z.of_nat (length [[4; 5]; [6; 7]; [8; 9]]) /\
    forall t, 0 <= t <= current_time_step self ->
      exists row,
        (np.rows two_by_two ++ [[4; 5]; [6; 7]; [8; 9]]) !! Z.to_nat t = Some row /\
        get_val_time self t = inr row.
Proof.
  apply (unbounded_memory_keeps_everything two_by_two [[4; 5]; [6; 7]; [8; 9]]).
  - exact two_by_two_wf.
  - discriminate.
  - repeat constructor.
Defined.

Lemma width_is_invariant_witness :
  pos_steps old_field = inr 2 /\
  Forall (fun r => Z.of_nat (length r) = 2) (np.rows (val old_field)) /\
  forall newval, pos_steps (fst (update old_field newval)) = inr 2.
Proof.
  assert (pos_steps old_field = inr 2) as Hw by reflexivity.
  split; [exact Hw|].
  exact (width_is_invariant old_field 2 old_field_reachable Hw).
Defined.

Lemma failed_update_breaks_get_last_witness :
  exists self0 self self',
    __init__ (Array2D two_by_two) (Fin 3) = inr self0 /\
    updates self0 [[4; 5]] = (self, None) /\
    update self [7] = (self', Some (ValueError DimensionMismatch)) /\
    get_last self' = inl IndexError.
Proof.
  apply (failed_update_breaks_get_last two_by_two (Fin 3) [[4; 5]] [7]).
  - exact two_by_two_wf.
  - discriminate.
  - reflexivity.
  - repeat constructor.
  - simpl. lia.
  - reflexivity.
Defined.

Lemma column_after_update_witness :
  pos_steps old_field = inr 2 /\ 0 <= 1 < 2 /\
  Z.of_nat (length [10; 11]) = 2 /\
  get_val_pos old_field 1 = inr [3; 5; 7; 9] /\
  exists x,
    [10; 11] !! Z.to_nat 1 = Some x /\
    get_val_pos (fst (update old_field [10; 11])) 1 =
      inr ((if gt_bound (current_time_step old_field + 1) (memory old_field)
            then tail [3; 5; 7; 9] else [3; 5; 7; 9]) ++ [x]).
Proof.
  assert (pos_steps old_field = inr 2) as Hw by reflexivity.
  assert (0 <= 1 < 2) as Hn by lia.
  assert (Z.of_nat (length [10; 11]) = 2) as Hlen by reflexivity.
  assert (get_val_pos old_field 1 = inr [3; 5; 7; 9]) as Hcol by reflexivity.
  split; [exact Hw|]. split; [exact Hn|]. split; [exact Hlen|].
  split; [exact Hcol|].
  exact (column_after_update old_field 2 1 [10; 11] [3; 5; 7; 9]
           old_field_reachable Hw Hn Hlen Hcol).
Defined.
End OrdinarySamples.

(** ** More about [list2str] *)

Section List2strFacts.
Import Simulation.

Lemma count_char_remove_other (c d : ascii) (text : string) :
  c <> d -> count_char c (remove_char d text) = count_char c text.
Proof.
  intros Hcd. induction text as [|e rest IH]; [reflexivity|]. simpl.
  destruct (Ascii.eqb_spec e d) as [->|Hed].
  - rewrite IH. destruct (Ascii.eqb_spec d c) as [->|_]; [easy|reflexivity].
  - simpl. now rewrite IH.
Qed.

Lemma remove_char_absent (c : ascii) (text : string) :
  count_char c text = 0%nat -> remove_char c text = text.
Proof.
  induction text as [|e rest IH]; [reflexivity|]. simpl.
  destruct (Ascii.eqb e c); [discriminate|]. intros H. now rewrite IH.
Qed.

(** X9. The text [list2str] returns holds no opening bracket, no
    closing bracket and no line break. *)
Theorem list2str_strips (text : string) :
  count_char "["%char (list2str text) = 0%nat /\
  count_char "]"%char (list2str text) = 0%nat /\
  count_char "010"%char (list2str text) = 0%nat.
Proof.
  unfold list2str. repeat split.
  - rewrite !count_char_remove_other by discriminate.
    apply count_char_remove.
  - rewrite count_char_remove_other by discriminate.
    apply count_char_remove.
  - apply count_char_remove.
Qed.

(** X10. [list2str] removes nothing else: every other character
    occurs in the result as often as in the text. *)
Theorem list2str_keeps_other_characters (text : string) (c : ascii) :
  c <> "["%char -> c <> "]"%char -> c <> "010"%char ->
  count_char c (list2str text) = count_char c text.
Proof.
  intros H1 H2 H3. unfold list2str.
  now rewrite !count_char_remove_other by assumption.
Qed.

(** X11. A text without brackets and line breaks comes back as it
    is. *)
Theorem list2str_clean_text (text : string) :
  count_char "["%char text = 0%nat ->
  count_char "]"%char text = 0%nat ->
  count_char "010"%char text = 0%nat ->
  list2str text = text.
Proof.
  intros H1 H2 H3. unfold list2str.
  rewrite (remove_char_absent "["%char) by exact H1.
  rewrite (remove_char_absent "]"%char) by exact H2.
  now apply remove_char_absent.
Qed.

Lemma list2str_keeps_other_characters_witness :
  count_char " "%char (list2str "[1 2 3]") = count_char " "%char "[1 2 3]".
Proof.
  apply (list2str_keeps_other_characters "[1 2 3]" " "%char); discriminate.
Defined.

Lemma list2str_clean_text_witness : list2str "1 2 3" = "1 2 3"%string.
Proof. apply (list2str_clean_text "1 2 3"); reflexivity. Defined.
End List2strFacts.

(** ** More about [Simulation.run] *)

Section DriverEdges.
Context {A Particles Positions Img : Type}.
Context (advance : OneSpaceField.t A -> Particles -> exn + (list A * Particles)).
Context (list_pos : Particles -> Z -> Positions).
Context (str_field : list A -> string) (str_pos : Positions -> string).
Context (idtxtfield idtxtparts : string).
Context (Image_new : Img) (instant_img : Img -> list A -> Positions -> Z -> Img).
Import Simulation.

Local Abbreviation world := (@Simulation.world A Particles Img).
Local Abbreviation M := (@Simulation.M A Particles Img).
Local Abbreviation s_update := (@Simulation.s_update A Particles Img advance).
Local Abbreviation step :=
  (Simulation.step advance list_pos str_field str_pos instant_img).
Local Abbreviation run :=
  (Simulation.run advance list_pos str_field str_pos idtxtfield idtxtparts
                  Image_new instant_img).
Local Abbreviation PhyString_update := (Simulation.PhyString_update advance).

Lemma preserves_get_bind {X : Type} (P : world -> Prop) (k : world -> M X) :
  (forall w, P w -> P (fst (k w w))) -> preserves P (get ≫= k).
Proof. intros Hk w Hw. now apply Hk. Qed.

Lemma preserves_for_each_Forall {X : Type} (P : world -> Prop) (l : list X)
    (body : X -> M unit) :
  Forall (fun x => preserves P (body x)) l -> preserves P (for_each l body).
Proof.
  induction 1 as [|x rest Hx _ IH]; simpl.
  - apply preserves_ret.
  - apply preserves_bind; [exact Hx|]. intros _. exact IH.
Qed.

(** X12. With animation and no time step to run there is no frame to
    save: [run] raises [IndexError] from [create_anim], once the
    headers are written, and saves nothing. *)
Theorem run_animation_without_steps (file : bool) (w : world) :
  time_steps (self w) <= 0 ->
  exists w',
    run true file w = (w', inl IndexError) /\
    self w' = self w /\ saved w' = saved w /\
    update_calls w' = update_calls w /\
    (file = true ->
       ff w' = Some {| content := [idtxtfield]; closed := false |} /\
       pf w' = Some {| content := [idtxtparts]; closed := false |}).
Proof.
  intros HN. destruct w as [[lg n st] f1 f2 imgs sv out calls]. simpl in HN.
  unfold Simulation.run.
  cbv beta iota zeta delta [self s log time_steps ff pf list_img saved stdout
                            update_calls get modify print_if_log print
                            list_img_reset list_img_append ff_write pf_write
                            set_ff set_pf raise mbind M_bind when mret M_ret
                            write open_w content closed create_anim].
  destruct lg, file; rewrite seqZ_nil by exact HN;
    (eexists; split; [reflexivity|]); simpl; repeat split; discriminate.
Qed.

(** X13. When [self.s.update()] raises in a turn, the loop ends with
    that exception: the turn reads nothing, draws nothing and writes
    nothing, and no later turn runs. *)
Theorem update_failure_stops_the_loop (anim file : bool) (tmpl : Img)
    (t : Z) (rest : list Z) (w : world) (s' : PhyString) (e : exn) :
  1 < t -> PhyString_update (s (self w)) = (s', Some e) ->
  exists w',
    for_each (t :: rest) (step anim file tmpl) w = (w', inl e) /\
    s (self w') = s' /\
    update_calls w' = update_calls w ++ [t] /\
    ff w' = ff w /\ pf w' = pf w /\
    list_img w' = list_img w /\ saved w' = saved w /\ stdout w' = stdout w.
Proof.
  intros Ht Hupd. destruct w as [[lg n st] f1 f2 imgs sv out calls].
  simpl in Hupd. eexists. split.
  - simpl for_each. unfold Simulation.step, Simulation.s_update.
    cbv beta iota zeta delta [self s log time_steps ff pf list_img saved
                              stdout update_calls mbind M_bind when].
    destruct (Z.gtb_spec t 1); [|lia]. rewrite Hupd. reflexivity.
  - now repeat split.
Qed.

(** X14. When the row of a turn cannot be read ([get_val_time]
    raises) and the turn made no update, the loop ends with that
    exception and nothing at all has changed. *)
Theorem read_failure_stops_the_loop (anim file : bool) (tmpl : Img)
    (t : Z) (rest : list Z) (w : world) (e : exn) :
  t <= 1 ->
  OneSpaceField.get_val_time (field (s (self w))) t = inl e ->
  for_each (t :: rest) (step anim file tmpl) w = (w, inl e).
Proof.
  intros Ht Hget. destruct w as [[lg n st] f1 f2 imgs sv out calls].
  simpl in Hget. simpl for_each.
  unfold Simulation.step, field_get_val_time.
  cbv beta iota zeta delta [self s log time_steps ff pf list_img saved
                            stdout update_calls mbind M_bind when mret M_ret].
  destruct (Z.gtb_spec t 1); [lia|]. now rewrite Hget.
Qed.

(** *** What [run] leaves alone *)

Lemma preserves_ff_write (P : world -> Prop) (text : string) :
  (forall x, preserves P (set_ff x : M unit)) ->
  preserves P (ff_write text : M unit).
Proof.
  intros Hset. apply preserves_get_bind. intros w Hw.
  destruct (ff w) as [f|]; [|exact Hw].
  destruct (write f text) as [e|f']; [exact Hw|]. now apply Hset.
Qed.

Lemma preserves_pf_write (P : world -> Prop) (text : string) :
  (forall x, preserves P (set_pf x : M unit)) ->
  preserves P (pf_write text : M unit).
Proof.
  intros Hset. apply preserves_get_bind. intros w Hw.
  destruct (pf w) as [f|]; [|exact Hw].
  destruct (write f text) as [e|f']; [exact Hw|]. now apply Hset.
Qed.

Lemma preserves_print_if_log' (P : world -> Prop) (p : Simulation.t -> printed) :
  (forall q, preserves P (print q : M unit)) ->
  preserves P (print_if_log p : M unit).
Proof.
  intros Hprint. apply preserves_get_bind. intros w Hw.
  unfold when. destruct (log (self w)); [|exact Hw]. now apply Hprint.
Qed.

(** A turn keeps what its parts keep. *)
Lemma step_frame (P : world -> Prop) (anim file : bool) (tmpl : Img) (t : Z) :
  (forall q, preserves P (print q : M unit)) ->
  (forall x, preserves P (list_img_append x : M unit)) ->
  (file = true -> forall x, preserves P (set_ff x : M unit)) ->
  (file = true -> forall x, preserves P (set_pf x : M unit)) ->
  (1 < t -> preserves P (s_update t)) ->
  preserves P (step anim file tmpl t).
Proof.
  intros Hprint Himg Hff Hpf Hupd. unfold Simulation.step.
  apply preserves_bind.
  { destruct (Z.gtb_spec t 1); [now apply Hupd|apply preserves_ret]. }
  intros _. apply preserves_bind; [intros w Hw; exact Hw|]. intros f.
  apply preserves_bind; [intros w Hw; exact Hw|]. intros pp.
  apply preserves_bind; [apply preserves_when, Himg|]. intros _.
  apply preserves_bind; [|intros _; now apply preserves_print_if_log'].
  destruct file; [|apply preserves_ret]. simpl.
  apply preserves_bind; [now apply preserves_ff_write, Hff|].
  intros _. now apply preserves_pf_write, Hpf.
Qed.

(** [run] keeps what its parts keep; [T] holds of the loop indices at
    which it may call [self.s.update()]. *)
Lemma run_frame (P : world -> Prop) (T : Z -> Prop) (anim file : bool) :
  (forall q, preserves P (print q : M unit)) ->
  (forall x, preserves P (list_img_append x : M unit)) ->
  preserves P (list_img_reset : M unit) ->
  (file = true -> forall x, preserves P (set_ff x : M unit)) ->
  (file = true -> forall x, preserves P (set_pf x : M unit)) ->
  (anim = true -> preserves P (create_anim : M unit)) ->
  (forall w t, P w -> 1 < t < time_steps (self w) -> T t) ->
  (forall t, T t -> preserves P (s_update t)) ->
  preserves P (run anim file).
Proof.
  intros Hprint Himg Hreset Hff Hpf Hsave Hrange Hupd. unfold Simulation.run.
  apply preserves_bind; [now apply preserves_print_if_log'|]. intros _.
  apply preserves_bind.
  { destruct file; [|apply preserves_ret]. simpl.
    apply preserves_bind; [now apply Hff|]. intros _.
    apply preserves_bind; [now apply Hpf|]. intros _.
    apply preserves_bind; [now apply preserves_ff_write, Hff|]. intros _.
    now apply preserves_pf_write, Hpf. }
  intros _. apply preserves_bind; [exact Hreset|]. intros _.
  apply preserves_get_bind. intros w Hw.
  apply (preserves_bind P); [| |exact Hw].
  - apply preserves_for_each_Forall, Forall_seqZ. intros t Ht.
    apply step_frame; try assumption.
    intros Ht1. apply Hupd, (Hrange w); [exact Hw|lia].
  - intros _. apply preserves_bind.
    + destruct anim; [|apply preserves_ret]. simpl.
      apply preserves_bind; [now apply preserves_print_if_log'|].
      intros _. now apply Hsave.
    + intros _. apply preserves_when. now apply preserves_print_if_log'.
Qed.

(** X15. Without file output [run] never touches a file: whatever
    the collaborators do, and whether it returns or raises, both file
    objects are what they were. *)
Theorem run_without_file_output (anim : bool) (w : world) :
  ff (fst (run anim false w)) = ff w /\ pf (fst (run anim false w)) = pf w.
Proof.
  apply (run_frame (fun w' => ff w' = ff w /\ pf w' = pf w) (fun _ => True));
    try discriminate; try easy.
  - intros _ w' Hw'. unfold create_anim, mbind, M_bind, get. simpl.
    now destruct (list_img w').
  - intros t _ w' Hw'. unfold Simulation.s_update.
    now destruct (PhyString_update (s (self w'))) as [s' [e|]].
Qed.

(** X16. Without animation [run] saves none: whatever the
    collaborators do, and whether it returns or raises, the saved
    animations are what they were. *)
Theorem run_without_animation (file : bool) (w : world) :
  saved (fst (run false file w)) = saved w.
Proof.
  apply (run_frame (fun w' => saved w' = saved w) (fun _ => True));
    try discriminate; try easy.
  intros t _ w' Hw'. unfold Simulation.s_update.
  now destruct (PhyString_update (s (self w'))) as [s' [e|]].
Qed.

(** X17. The first two turns belong to the initial rows: a run of at
    most two time steps never calls [self.s.update()], so the string
    object, and with it the buffer, is what it was, with or without
    animation and file output. *)
Theorem run_of_seed_steps_never_updates (anim file : bool) (w : world) :
  time_steps (self w) <= 2 ->
  self (fst (run anim file w)) = self w /\
  update_calls (fst (run anim file w)) = update_calls w.
Proof.
  intros HN.
  apply (run_frame (fun w' => self w' = self w /\ update_calls w' = update_calls w)
           (fun _ => False)); try easy.
  - intros _ w' Hw'. unfold create_anim, mbind, M_bind, get. simpl.
    now destruct (list_img w').
  - intros w' t [Hself _] Ht. rewrite Hself in Ht. lia.
Qed.
End DriverEdges.

(** ** The edges of the driver on sample inputs *)

Section DriverEdgeSamples.
Import Simulation.

Lemma run_animation_without_steps_witness :
  time_steps (self (sample_world 0)) <= 0 /\
  exists w',
    sample_run true true 0 = (w', inl IndexError) /\
    self w' = self (sample_world 0) /\
    saved w' = saved (sample_world 0) /\
    update_calls w' = update_calls (sample_world 0) /\
    (true = true ->
       ff w' = Some {| content := ["field header"]; closed := false |} /\
       pf w' = Some {| content := ["particles header"]; closed := false |}).
Proof.
  assert (time_steps (self (sample_world 0)) <= 0) as HN by (simpl; lia).
  split; [exact HN|].
  exact (run_animation_without_steps sample_advance sample_list_pos
           sample_str_field sample_str_pos "field header" "particles header"
           tt (fun img _ _ _ => img) true (sample_world 0) HN).
Defined.

Lemma update_failure_stops_the_loop_witness :
  exists w',
    for_each [2; 3]
      (step failing_advance sample_list_pos sample_str_field sample_str_pos
            (fun (img : unit) _ _ _ => img) false true tt)
      (sample_world 4) = (w', inl TypeError) /\
    s (self w') = s (self (sample_world 4)) /\
    update_calls w' = update_calls (sample_world 4) ++ [2] /\
    ff w' = ff (sample_world 4) /\ pf w' = pf (sample_world 4) /\
    list_img w' = list_img (sample_world 4) /\
    saved w' = saved (sample_world 4) /\
    stdout w' = stdout (sample_world 4).
Proof.
  apply (update_failure_stops_the_loop failing_advance sample_list_pos
           sample_str_field sample_str_pos (fun (img : unit) _ _ _ => img)
           false true tt 2 [3] (sample_world 4)
           (s (self (sample_world 4))) TypeError).
  - lia.
  - reflexivity.
Defined.

Lemma read_failure_stops_the_loop_witness :
  for_each [1]
    (step sample_advance sample_list_pos sample_str_field sample_str_pos
          (fun (img : unit) _ _ _ => img) false true tt)
    single_seed_world = (single_seed_world, inl IndexError).
Proof.
  apply (read_failure_stops_the_loop sample_advance sample_list_pos
           sample_str_field sample_str_pos (fun (img : unit) _ _ _ => img)
           false true tt 1 [] single_seed_world IndexError).
  - lia.
  - reflexivity.
Defined.

Lemma run_of_seed_steps_never_updates_witness :
  self (fst (sample_run false true 2)) = self (sample_world 2) /\
  update_calls (fst (sample_run false true 2)) = update_calls (sample_world 2).
Proof.
  apply (run_of_seed_steps_never_updates sample_advance sample_list_pos
           sample_str_field sample_str_pos "field header" "particles header"
           tt (fun img _ _ _ => img) false true (sample_world 2)).
  simpl. lia.
Defined.
End DriverEdgeSamples.

(** ** Columns against rows *)

Section ColumnsAndRows.
Context {A : Type}.
Import OneSpaceField.
Implicit Types (self : OneSpaceField.t A) (a : np.ndarray A).
Implicit Types (news : list (list A)).

(** On an ordinary buffer the first stored row is the one of the
    oldest retained time. *)
Lemma first_stored_time_tracks hist self :
  tracks hist self -> first_stored_time self = oldest_retained_time self.
Proof.
  intros Htr. unfold first_stored_time.
  rewrite (tracks_time_steps hist self Htr). lia.
Qed.

(** X19. Columns and rows agree on an ordinary buffer: for a cell [n]
    within the width and an offset [i] within the stored rows, entry
    [i] of the column at [n] is entry [n] of the row that
    [get_val_time] returns for the [i]-th stored time step, and that
    row is the one the buffer was given for that time step. *)
Theorem column_row_agreement_ordinary a (mem : bound) news (n : Z) (i : nat) :
  np.wf a -> np.rows a <> [] -> bound_lt mem 3 = false ->
  gt_bound (Z.of_nat (length (np.rows a)) - 1) mem = false ->
  Forall (fun r => length r = np.ncols a) news ->
  0 <= n < Z.of_nat (np.ncols a) ->
  exists self0 self,
    __init__ (Array2D a) mem = inr self0 /\
    updates self0 news = (self, None) /\
    (Z.of_nat i < time_steps self ->
       exists col row x,
         get_val_pos self n = inr col /\
         get_val_time self (first_stored_time self + Z.of_nat i) = inr row /\
         (np.rows a ++ news) !! Z.to_nat (first_stored_time self + Z.of_nat i)
           = Some row /\
         col !! i = Some x /\ row !! Z.to_nat n = Some x).
Proof.
  intros Hwf Hne Hmem Hwarm Hall Hn.
  destruct (ordinary_build a mem news Hwf Hne Hmem Hwarm Hall)
    as (self0 & self & Hinit & Hrun & Htr & Hreach & Hcols & _).
  exists self0, self. split; [exact Hinit|]. split; [exact Hrun|].
  intros Hi.
  rewrite (first_stored_time_tracks _ self Htr).
  pose proof (tracks_time_steps _ self Htr) as Hext.
  pose proof Htr as (Hpos & Hlen & Hm & Hrows).
  pose proof (oldest_retained_time_range self Hm Hpos) as Hrange.
  destruct (tracks_get_val_time _ self
              (oldest_retained_time self + Z.of_nat i) Htr)
    as (row & Hrow & Hget); [lia|].
  apply reachable_inv in Hreach as [Hwf' _].
  destruct (wf_column (val self) (Z.to_nat n) Hwf') as [col Hcol]; [lia|].
  pose proof Hcol as Hcolumn. apply mapM_Some in Hcolumn.
  assert (np.rows (val self) !! i = Some row) as Hstored.
  { rewrite Hrows, lookup_drop, <- Hrow. f_equal. lia. }
  destruct (Forall2_lookup_l _ _ _ _ _ Hcolumn Hstored) as (x & Hx & Hrx).
  exists col, row, x.
  split.
  { unfold get_val_pos, np.getcolumn.
    rewrite axis_index_front by lia. now rewrite Hcol. }
  now repeat split.
Qed.
End ColumnsAndRows.

Section ColumnsAndRowsSamples.
Import OneSpaceField.

(** C5 on an initial array with more than [memory + 1] rows: the
    column at cell 0 lists the values of the five stored rows, those
    of the time steps 0 to 4, while [get_val_time] raises for the
    first stored time step and returns the row of the time step
    before for each of the others. *)
Theorem column_row_disagreement_oversized_seed :
  exists self,
    __init__ (Array2D five_rows) (Fin 3) = inr self /\
    pos_steps self = inr 1 /\ time_steps self = 5 /\
    first_stored_time self = 0 /\
    get_val_pos self 0 = inr [0; 1; 2; 3; 4] /\
    get_val_time self (first_stored_time self + 0) =
      inl (ValueError (MemoryRestriction 0)) /\
    get_val_time self (first_stored_time self + 1) = inr [0] /\
    get_val_time self (first_stored_time self + 2) = inr [1] /\
    get_val_time self (first_stored_time self + 3) = inr [2] /\
    get_val_time self (first_stored_time self + 4) = inr [3].
Proof. eexists. split; [reflexivity|]. now vm_compute. Qed.

Lemma column_row_agreement_ordinary_witness :
  0 <= 1 < Z.of_nat (np.ncols two_by_two) /\
  exists self0 self,
    __init__ (Array2D two_by_two) (Fin 3) = inr self0 /\
    updates self0 [[4; 5]; [6; 7]; [8; 9]] = (self, None) /\
    (Z.of_nat 3 < time_steps self ->
       exists col row x,
         get_val_pos self 1 = inr col /\
         get_val_time self (first_stored_time self + Z.of_nat 3) = inr row /\
         (np.rows two_by_two ++ [[4; 5]; [6; 7]; [8; 9]])
           !! Z.to_nat (first_stored_time self + Z.of_nat 3) = Some row /\
         col !! 3%nat = Some x /\ row !! Z.to_nat 1 = Some x).
Proof.
  assert (0 <= 1 < Z.of_nat (np.ncols two_by_two)) as Hn by (simpl; lia).
  split; [exact Hn|].
  apply (column_row_agreement_ordinary two_by_two (Fin 3)
           [[4; 5]; [6; 7]; [8; 9]] 1 3).
  - exact two_by_two_wf.
  - discriminate.
  - reflexivity.
  - reflexivity.
  - repeat constructor.
  - exact Hn.
Defined.
End ColumnsAndRowsSamples.
